(** * PolynomialSolver: exact Lagrange interpolation over base-N encoded points

    A shallow embedding of the [PolynomialSolver] class of
    [src/polynomial.jsx] and the properties of it that the specification
    states.

    Conventions of the embedding.
    - A JS [BigInt] is a [Z].  BigInt [/] truncates towards zero and [%]
      takes the sign of the dividend: they are [Z.quot] and [Z.rem].  Both
      raise a [RangeError] on a zero divisor; that is the error
      [RangeErrorDivisionByZero] below.
    - A JS [Number] that passes [Number.isInteger] is a [Z] too ([NInt]); every
      other number (NaN, fractions, infinities) is [NNonInt].  The abscissa
      of a point is such an integer; [BigInt(x)] is that same integer.
    - A [throw new Error(msg)] is [Err e], one constructor of [error] for each
      message of the source; nothing in the class catches an error.
    - A JS string is a [string] and [value[i]] is one [ascii] character:
      code units above 255 are left out (the source rejects them as
      unsupported digits).
    - The host's string-to-number coercion ([Number(key)], [Number(base)] on a
      string) is a parameter [StringToNumber] of the development.
    - [solve] is given the parsed object: the [JSON.parse] of a string
      argument, and the error it raises on a string that is not JSON, are
      left to the caller.  Every property of the object other than [keys]
      holds an object; its [base] and [value] are undefined, numbers or
      strings.  A property that holds null, at which the source raises a
      TypeError, is left out. *)

From Stdlib Require Import ZArith List Bool Lia String Ascii Permutation Sorted.
From Equations Require Import Equations.
From Equations.Prop Require Import Logic.
Import ListNotations.

Local Open Scope Z_scope.

(** ** Errors and the error monad *)

Inductive error : Type :=
| UnsupportedDigit            (* Unsupported digit character '...' *)
| InvalidBase                 (* Base must be integer in range 2..62 *)
| EmptyValue                  (* Empty value string *)
| DigitInvalidForBase         (* Digit '...' invalid for base ... *)
| NoPoints                    (* No points provided for interpolation *)
| DuplicateXDenominatorZero   (* Duplicate x values encountered (denominator zero) *)
| FinalDenominatorZero        (* Internal math error: final denominator zero *)
| ConstantTermNotInteger      (* Constant term is not an integer *)
| DuplicateX                  (* Duplicate x values encountered *)
| DenominatorZero             (* Internal math error: denominator zero *)
| NonIntegerEvaluation        (* Non-integer evaluation at x=... *)
| MissingKeys                 (* Invalid input JSON: missing keys *)
| KeysNotIntegers             (* keys.n and keys.k must be integers *)
| InvalidXKey                 (* Invalid x key: ... *)
| BadPointFormat              (* Bad point format at key ... *)
| NeedAtLeastK                (* Need at least k=... points, got ... *)
| DuplicateSelected           (* Duplicate x-values found in selected points *)
| VerificationFailed          (* Polynomial determined from selected points
                                 does not match all provided points *)
| RangeErrorDivisionByZero.   (* the host's RangeError: Division by zero *)

Inductive result (A : Type) : Type :=
| Ok (a : A)
| Err (e : error).
Arguments Ok {A} a.
Arguments Err {A} e.

Definition bind {A B : Type} (r : result A) (f : A -> result B) : result B :=
  match r with
  | Ok a => f a
  | Err e => Err e
  end.

Notation "x <- r ;; k" := (bind r (fun x => k))
  (at level 61, r at next level, right associativity).

(** BigInt division and remainder, with the host's check of the divisor. *)
Definition bigdiv (a b : Z) : result Z :=
  if b =? 0 then Err RangeErrorDivisionByZero else Ok (Z.quot a b).

Definition bigrem (a b : Z) : result Z :=
  if b =? 0 then Err RangeErrorDivisionByZero else Ok (Z.rem a b).

(** ** JS values that reach the solver *)

Inductive jsnum : Type :=
| NInt (z : Z)      (* a number for which Number.isInteger holds *)
| NNonInt.          (* NaN, a fraction, an infinity *)

Inductive jsval : Type :=
| JUndefined
| JNumber (n : jsnum)
| JString (s : string).

(** [Number.isInteger(v)]: false on everything that is not a number. *)
Definition isInteger (v : jsval) : option Z :=
  match v with
  | JNumber (NInt z) => Some z
  | _ => None
  end.

(** ** Digit codec *)

Definition charCode (ch : ascii) : Z := Z.of_N (N_of_ascii ch).

Definition getDigitValue (ch : ascii) : result Z :=
  let code := charCode ch in
  if (48 <=? code) && (code <=? 57) then Ok (code - 48)
  else if (97 <=? code) && (code <=? 122) then Ok (10 + (code - 97))
  else if (65 <=? code) && (code <=? 90) then Ok (36 + (code - 65))
  else Err UnsupportedDigit.

(** ** Based-integer decoder *)

(** The [for] loop of [convertToDecimalBigInt], from position [i] on, with
    the accumulator [res]. *)
Fixpoint convert_loop (baseNum : Z) (value : string) (res : Z) : result Z :=
  match value with
  | EmptyString => Ok res
  | String ch rest =>
      digit <- getDigitValue ch ;;
      if digit >=? baseNum then Err DigitInvalidForBase
      else convert_loop baseNum rest (res * baseNum + digit)
  end.

Section Coercion.

(** The host's coercion of a string to a number. *)
Variable StringToNumber : string -> jsnum.

(** [Number(v)]. *)
Definition Number (v : jsval) : jsnum :=
  match v with
  | JUndefined => NNonInt
  | JNumber n => n
  | JString s => StringToNumber s
  end.

Definition convertToDecimalBigInt (value : jsval) (base : jsval) : result Z :=
  match Number base with
  | NNonInt => Err InvalidBase
  | NInt baseNum =>
      if (baseNum <? 2) || (baseNum >? 62) then Err InvalidBase
      else
        match value with
        | JString s =>
            if (String.length s =? 0)%nat then Err EmptyValue
            else convert_loop baseNum s 0
        | _ => Err EmptyValue
        end
  end.

End Coercion.

(** ** Greatest common divisor *)

(** The [while (b !== 0n)] loop of [gcdBig].  The remainder is taken only
    under the loop guard, so its divisor check never fires; it is kept, as
    every BigInt [%] has it. *)
Equations? gcd_loop (a b : Z) : result Z by wf (Z.abs_nat b) lt :=
  gcd_loop a b with Z.eq_dec b 0 := {
    | left _ => Ok a
    | right Hb with inspect (bigrem a b) := {
        | exist _ (Ok r) Hr => gcd_loop b r
        | exist _ (Err e) Hr => Err e } }.
Proof.
  unfold bigrem in Hr.
  destruct (b =? 0); [discriminate|].
  injection Hr as <-.
  pose proof (Z.rem_bound_abs a b Hb). lia.
Qed.

Definition gcdBig (a b : Z) : result Z :=
  let a := if a <? 0 then - a else a in
  let b := if b <? 0 then - b else b in
  gcd_loop a b.

(** ** Points *)

Module Point.
Record t : Type := mk { x : Z; y : Z }.
End Point.

(** ** Interpolation engine: the constant term *)

(** Inner loop of [findConstantTerm] for the outer index [i]: [points] is
    what is left of the array from index [j] on. *)
Fixpoint fct_term (points : list Point.t) (i j : nat) (xi termNum termDen : Z)
  : Z * Z :=
  match points with
  | [] => (termNum, termDen)
  | pj :: rest =>
      if (i =? j)%nat then fct_term rest i (S j) xi termNum termDen
      else
        let xj := Point.x pj in
        fct_term rest i (S j) xi (termNum * - xj) (termDen * (xi - xj))
  end.

(** Body of the outer loop: one term folded into the running sum. *)
Definition fct_body (points : list Point.t) (i : nat) (pi : Point.t)
  (sumNum sumDen : Z) : result (Z * Z) :=
  let xi := Point.x pi in
  let yi := Point.y pi in
  let '(termNum, termDen) := fct_term points i 0 xi yi 1 in
  if termDen =? 0 then Err DuplicateXDenominatorZero
  else
    let newNum := sumNum * termDen + termNum * sumDen in
    let newDen := sumDen * termDen in
    g <- gcdBig newNum newDen ;;
    newNum' <- bigdiv newNum g ;;
    newDen' <- bigdiv newDen g ;;
    Ok (newNum', newDen').

(** Outer loop: [rest] is what is left of the array from index [i] on. *)
Fixpoint fct_loop (points : list Point.t) (i : nat) (rest : list Point.t)
  (sumNum sumDen : Z) : result (Z * Z) :=
  match rest with
  | [] => Ok (sumNum, sumDen)
  | pi :: rest' =>
      s <- fct_body points i pi sumNum sumDen ;;
      fct_loop points (S i) rest' (fst s) (snd s)
  end.

Definition findConstantTerm (points : list Point.t) : result Z :=
  if (List.length points =? 0)%nat then Err NoPoints
  else
    s <- fct_loop points 0 points 0 1 ;;
    let sumNum := fst s in
    let sumDen := snd s in
    if sumDen =? 0 then Err FinalDenominatorZero
    else
      r <- bigrem sumNum sumDen ;;
      if negb (r =? 0) then Err ConstantTermNotInteger
      else bigdiv sumNum sumDen.

(** ** Interpolation engine: evaluation at [x0] *)

Fixpoint eval_term (points : list Point.t) (i j : nat) (x0b xi termNum termDen : Z)
  : Z * Z :=
  match points with
  | [] => (termNum, termDen)
  | pj :: rest =>
      if (i =? j)%nat then eval_term rest i (S j) x0b xi termNum termDen
      else
        let xj := Point.x pj in
        eval_term rest i (S j) x0b xi (termNum * (x0b - xj)) (termDen * (xi - xj))
  end.

Definition eval_body (points : list Point.t) (x0b : Z) (i : nat) (pi : Point.t)
  (sumNum sumDen : Z) : result (Z * Z) :=
  let xi := Point.x pi in
  let yi := Point.y pi in
  let '(termNum, termDen) := eval_term points i 0 x0b xi yi 1 in
  if termDen =? 0 then Err DuplicateX
  else
    let newNum := sumNum * termDen + termNum * sumDen in
    let newDen := sumDen * termDen in
    g <- gcdBig newNum newDen ;;
    newNum' <- bigdiv newNum g ;;
    newDen' <- bigdiv newDen g ;;
    Ok (newNum', newDen').

Fixpoint eval_loop (points : list Point.t) (x0b : Z) (i : nat)
  (rest : list Point.t) (sumNum sumDen : Z) : result (Z * Z) :=
  match rest with
  | [] => Ok (sumNum, sumDen)
  | pi :: rest' =>
      s <- eval_body points x0b i pi sumNum sumDen ;;
      eval_loop points x0b (S i) rest' (fst s) (snd s)
  end.

Definition evaluateAt (x0 : Z) (points : list Point.t) : result Z :=
  if (List.length points =? 0)%nat then Ok 0
  else
    s <- eval_loop points x0 0 points 0 1 ;;
    let sumNum := fst s in
    let sumDen := snd s in
    if sumDen =? 0 then Err DenominatorZero
    else
      r <- bigrem sumNum sumDen ;;
      if negb (r =? 0) then Err NonIntegerEvaluation
      else bigdiv sumNum sumDen.

(** ** Verification *)

Fixpoint verifyAllPoints (selectedPoints allPoints : list Point.t) : result bool :=
  match allPoints with
  | [] => Ok true
  | p :: rest =>
      val <- evaluateAt (Point.x p) selectedPoints ;;
      if negb (val =? Point.y p) then Ok false
      else verifyAllPoints selectedPoints rest
  end.

(** ** Solver pipeline *)

Module Keys.
Record t : Type := mk { n : jsval; k : jsval }.
End Keys.

(** The object found under an x key: its [base] and [value] properties
    ([JUndefined] when the property is absent). *)
Module Entry.
Record t : Type := mk { base : jsval; value : jsval }.
End Entry.

(** The parsed input: [keys] is [data.keys] ([None] when it is absent or
    falsy); [props] is [Object.keys(data)] in the host's order, each key
    with the object stored under it (the key [keys] itself, which the loop
    skips, may be left out). *)
Module Input.
Record t : Type := mk { keys : option Keys.t; props : list (string * Entry.t) }.
End Input.

Module Solution.
Record t : Type := mk {
  constantTerm : Z;
  selectedPoints : list Point.t;
  allPoints : list Point.t }.
End Solution.

(** [points.sort((a, b) => a.x - b.x)]: the sort of the host is stable, so
    its result is that of insertion before the first element that is not
    smaller. *)
Fixpoint insert_by_x (p : Point.t) (sorted : list Point.t) : list Point.t :=
  match sorted with
  | [] => [p]
  | q :: rest =>
      if Point.x p - Point.x q <=? 0 then p :: q :: rest
      else q :: insert_by_x p rest
  end.

Fixpoint sort_by_x (points : list Point.t) : list Point.t :=
  match points with
  | [] => []
  | p :: rest => insert_by_x p (sort_by_x rest)
  end.

(** [arr.slice(0, k)] for an integer [k]: a negative [k] counts from the
    end of the array. *)
Definition slice0 {A : Type} (arr : list A) (k : Z) : list A :=
  let len := Z.of_nat (List.length arr) in
  let final := if k <? 0 then Z.max (len + k) 0 else Z.min k len in
  firstn (Z.to_nat final) arr.

(** [new Set(xs).size]. *)
Definition set_size (xs : list Z) : nat := List.length (nodup Z.eq_dec xs).

Section Pipeline.

Variable StringToNumber : string -> jsnum.

(** The decoding loop of [solve]; [points] is the array built so far. *)
Fixpoint decode_props (props : list (string * Entry.t)) (points : list Point.t)
  : result (list Point.t) :=
  match props with
  | [] => Ok points
  | (key, entry) :: rest =>
      if String.eqb key "keys" then decode_props rest points
      else
        match StringToNumber key with
        | NNonInt => Err InvalidXKey
        | NInt x =>
            let base := Entry.base entry in
            let value := Entry.value entry in
            match base, value with
            | JUndefined, _ => Err BadPointFormat
            | _, JString _ =>
                yBig <- convertToDecimalBigInt StringToNumber value base ;;
                decode_props rest (points ++ [Point.mk x yBig])
            | _, _ => Err BadPointFormat
            end
        end
  end.

Definition solve (data : Input.t) : result Solution.t :=
  match Input.keys data with
  | None => Err MissingKeys
  | Some keys =>
      match isInteger (Keys.n keys), isInteger (Keys.k keys) with
      | Some n, Some k =>
          points <- decode_props (Input.props data) [] ;;
          if Z.of_nat (List.length points) <? k then Err NeedAtLeastK
          else
            let points := sort_by_x points in
            let selected := slice0 points k in
            let s := set_size (map Point.x selected) in
            if negb (s =? List.length selected)%nat then Err DuplicateSelected
            else
              constantTerm <- findConstantTerm selected ;;
              ok <- verifyAllPoints selected points ;;
              if negb ok then Err VerificationFailed
              else Ok (Solution.mk constantTerm selected points)
      | _, _ => Err KeysNotIntegers
      end
  end.

End Pipeline.

(** A coercion for the examples: a non-empty string of decimal digits is
    the number it writes.  The host agrees with it on such strings as long
    as the number is below 2^53; every other string is left out of it
    ([NNonInt]). *)
Fixpoint decimal_digits (s : string) (acc : Z) : option Z :=
  match s with
  | EmptyString => Some acc
  | String ch rest =>
      let code := charCode ch in
      if (48 <=? code) && (code <=? 57) then decimal_digits rest (acc * 10 + (code - 48))
      else None
  end.

Definition decimalStringToNumber (s : string) : jsnum :=
  match s with
  | EmptyString => NNonInt
  | _ => match decimal_digits s 0 with
         | Some z => NInt z
         | None => NNonInt
         end
  end.

(** The end-to-end example of the specification (the first default test
    case of the analyzer). *)
Definition example_input : Input.t :=
  Input.mk (Some (Keys.mk (JNumber (NInt 4)) (JNumber (NInt 3))))
    [ ("1"%string, Entry.mk (JString "10") (JString "4"));
      ("2"%string, Entry.mk (JString "2") (JString "111"));
      ("3"%string, Entry.mk (JString "10") (JString "12"));
      ("6"%string, Entry.mk (JString "4") (JString "213")) ].

(** * Reference definitions

    What the specification compares the code with: positional notation, the
    digit alphabet, polynomials with integer coefficients. *)

(** The digit alphabet: the value of a digit is its position in it. *)
Definition digit_alphabet : string :=
  "0123456789abcdefghijklmnopqrstuvwxyzABCDEFGHIJKLMNOPQRSTUVWXYZ".

Fixpoint position_in (c : ascii) (s : string) : option Z :=
  match s with
  | EmptyString => None
  | String c' rest =>
      if Ascii.eqb c c' then Some 0
      else option_map Z.succ (position_in c rest)
  end.

Definition spec_digit_value (c : ascii) : option Z := position_in c digit_alphabet.

(** The digits of a string, most significant first; [None] when a character
    is not in the alphabet. *)
Fixpoint spec_digits (s : string) : option (list Z) :=
  match s with
  | EmptyString => Some []
  | String c rest =>
      match spec_digit_value c, spec_digits rest with
      | Some d, Some ds => Some (d :: ds)
      | _, _ => None
      end
  end.

(** Positional notation: the digit [d] followed by [m] more digits weighs
    [d * b ^ m]. *)
Fixpoint spec_positional_value (b : Z) (ds : list Z) : Z :=
  match ds with
  | [] => 0
  | d :: rest => d * b ^ Z.of_nat (List.length rest) + spec_positional_value b rest
  end.

(** A polynomial with integer coefficients, lowest degree first, and its
    value at [x]. *)
Fixpoint peval (c : list Z) (x : Z) : Z :=
  match c with
  | [] => 0
  | a :: c' => a + x * peval c' x
  end.

(** A function that some coefficient list of length at most [n] computes:
    a polynomial function of degree below [n]. *)
Definition polyfun (n : nat) (f : Z -> Z) : Prop :=
  exists c : list Z, (List.length c <= n)%nat /\ forall x : Z, f x = peval c x.

(** The product of [z - x_j] over the points of [points], which start at
    index [j], but for the index [i]. *)
Fixpoint skip_prod (z : Z) (points : list Point.t) (i j : nat) : Z :=
  match points with
  | [] => 1
  | pj :: rest =>
      if (i =? j)%nat then skip_prod z rest i (S j)
      else (z - Point.x pj) * skip_prod z rest i (S j)
  end.

(** The Lagrange basis of index [i], not yet divided: both the numerator
    of the term (at [z = x0]) and its denominator (at [z = x_i]). *)
Definition basis (points : list Point.t) (i : nat) (z : Z) : Z :=
  skip_prod z points i 0.

(** The sum of the terms from index [i] on, as one fraction that is never
    reduced: numerator and denominator. *)
Fixpoint den_prod (points : list Point.t) (i : nat) (rest : list Point.t) (T : Z) : Z :=
  match rest with
  | [] => T
  | p :: rest' => den_prod points (S i) rest' (T * basis points i (Point.x p))
  end.

Fixpoint num_sum (points : list Point.t) (x0 : Z) (i : nat) (rest : list Point.t)
  (S T : Z) : Z :=
  match rest with
  | [] => S
  | p :: rest' =>
      let D := basis points i (Point.x p) in
      let N := basis points i x0 in
      num_sum points x0 (Datatypes.S i) rest' (S * D + Point.y p * N * T) (T * D)
  end.

Definition lag_den (points : list Point.t) : Z := den_prod points 0 points 1.

Definition lag_num (points : list Point.t) (x0 : Z) : Z :=
  num_sum points x0 0 points 0 1.

(** Every point of the list lies on the polynomial [c]. *)
Definition on_poly (c : list Z) (points : list Point.t) : Prop :=
  Forall (fun p => Point.y p = peval c (Point.x p)) points.

(** The messages of [findConstantTerm] for the failures of [evaluateAt]. *)
Definition constant_term_error (e : error) : error :=
  match e with
  | DuplicateX => DuplicateXDenominatorZero
  | DenominatorZero => FinalDenominatorZero
  | NonIntegerEvaluation => ConstantTermNotInteger
  | _ => e
  end.

Definition map_err {A : Type} (f : error -> error) (r : result A) : result A :=
  match r with
  | Ok a => Ok a
  | Err e => Err (f e)
  end.

(** The three points selected in the end-to-end example. *)
Definition example_points : list Point.t :=
  [Point.mk 1 4; Point.mk 2 7; Point.mk 3 12].

(** Ascending order of the abscissas. *)
Definition x_le (p q : Point.t) : Prop := Point.x p <= Point.x q.


(** The end-to-end example with a declared count [n] and a subset size [k]
    of one's choice. *)
Definition example_with_keys (n k : Z) : Input.t :=
  Input.mk (Some (Keys.mk (JNumber (NInt n)) (JNumber (NInt k))))
    (Input.props example_input).

(** Three points of the line [y = x], and the same with the ordinate of
    the first one changed from 1 to 2. *)
Definition line_input (k : Z) : Input.t :=
  Input.mk (Some (Keys.mk (JNumber (NInt 3)) (JNumber (NInt k))))
    [ ("1"%string, Entry.mk (JNumber (NInt 10)) (JString "1"));
      ("3"%string, Entry.mk (JNumber (NInt 10)) (JString "3"));
      ("5"%string, Entry.mk (JNumber (NInt 10)) (JString "5")) ].

Definition line_input_tampered (k : Z) : Input.t :=
  Input.mk (Some (Keys.mk (JNumber (NInt 3)) (JNumber (NInt k))))
    [ ("1"%string, Entry.mk (JNumber (NInt 10)) (JString "2"));
      ("3"%string, Entry.mk (JNumber (NInt 10)) (JString "3"));
      ("5"%string, Entry.mk (JNumber (NInt 10)) (JString "5")) ].

(** The first three points of the example alone, the ordinate of the third
    one written in decimal by [y3]: no point is left to check the
    interpolation against. *)
Definition three_point_input (y3 : string) : Input.t :=
  Input.mk (Some (Keys.mk (JNumber (NInt 3)) (JNumber (NInt 3))))
    [ ("1"%string, Entry.mk (JString "10") (JString "4"));
      ("2"%string, Entry.mk (JString "2") (JString "111"));
      ("3"%string, Entry.mk (JString "10") (JString y3)) ].

(** The body of the decoding loop of [solve] for one property: no point
    for the key [keys], the decoded point for another key, or the error the
    loop stops with. *)
Definition decode_entry (StringToNumber : string -> jsnum) (key : string)
  (entry : Entry.t) : result (option Point.t) :=
  if String.eqb key "keys" then Ok None
  else
    match StringToNumber key with
    | NNonInt => Err InvalidXKey
    | NInt x =>
        match Entry.base entry, Entry.value entry with
        | JUndefined, _ => Err BadPointFormat
        | _, JString _ =>
            yBig <- convertToDecimalBigInt StringToNumber
                      (Entry.value entry) (Entry.base entry) ;;
            Ok (Some (Point.mk x yBig))
        | _, _ => Err BadPointFormat
        end
    end.

(** The points of the properties that decode, in the order of the
    properties. *)
Definition entry_points (StringToNumber : string -> jsnum)
  (props : list (string * Entry.t)) : list Point.t :=
  flat_map (fun pe => match decode_entry StringToNumber (fst pe) (snd pe) with
                      | Ok (Some p) => [p]
                      | _ => []
                      end) props.

Definition entry_ok (StringToNumber : string -> jsnum) (pe : string * Entry.t)
  : Prop :=
  exists o : option Point.t, decode_entry StringToNumber (fst pe) (snd pe) = Ok o.

(** The errors [solve] can end with on the inputs of this embedding. *)
Definition solve_errors : list error :=
  [ MissingKeys; KeysNotIntegers; InvalidXKey; BadPointFormat; InvalidBase;
    EmptyValue; UnsupportedDigit; DigitInvalidForBase; NeedAtLeastK;
    DuplicateSelected; NoPoints; ConstantTermNotInteger; NonIntegerEvaluation;
    VerificationFailed ].

(** The end-to-end example with one more sample of the same polynomial
    appended under the key ["02"]: the abscissa 2 a second time. *)
Definition example_repeated_input : Input.t :=
  Input.mk (Some (Keys.mk (JNumber (NInt 5)) (JNumber (NInt 3))))
    (Input.props example_input
     ++ [ ("02"%string, Entry.mk (JString "2") (JString "111")) ]).

(** Four points of [y = x (x - 1) / 2], a polynomial whose coefficients
    are not integers, the ordinate of the last one written in decimal by
    [y3]. *)
Definition triangular_input (y3 : string) : Input.t :=
  Input.mk (Some (Keys.mk (JNumber (NInt 4)) (JNumber (NInt 3))))
    [ ("0"%string, Entry.mk (JNumber (NInt 10)) (JString "0"));
      ("1"%string, Entry.mk (JNumber (NInt 10)) (JString "0"));
      ("2"%string, Entry.mk (JNumber (NInt 10)) (JString "1"));
      ("3"%string, Entry.mk (JNumber (NInt 10)) (JString y3)) ].

(** Three points of the line [y = x] with the abscissa 2 twice, the
    ordinate of the first one written in decimal by [y1]. *)
Definition repeated_line_input (y1 : string) : Input.t :=
  Input.mk (Some (Keys.mk (JNumber (NInt 3)) (JNumber (NInt 2))))
    [ ("1"%string, Entry.mk (JNumber (NInt 10)) (JString y1));
      ("2"%string, Entry.mk (JNumber (NInt 10)) (JString "2"));
      ("02"%string, Entry.mk (JNumber (NInt 10)) (JString "2")) ].

(** * Properties *)

(** ** Digit codec and decoder *)

Lemma getDigitValue_spec (c : ascii) :
  getDigitValue c =
  match spec_digit_value c with
  | Some d => Ok d
  | None => Err UnsupportedDigit
  end.
Proof.
  destruct c as [b0 b1 b2 b3 b4 b5 b6 b7].
  destruct b0, b1, b2, b3, b4, b5, b6, b7; vm_compute; reflexivity.
Qed.

Lemma spec_digit_value_range (c : ascii) (d : Z) :
  spec_digit_value c = Some d -> 0 <= d <= 61.
Proof.
  destruct c as [b0 b1 b2 b3 b4 b5 b6 b7].
  destruct b0, b1, b2, b3, b4, b5, b6, b7; vm_compute; intros H;
    try discriminate; injection H as <-; split; discriminate.
Qed.

Lemma convert_loop_positional (b : Z) (s : string) :
  forall (ds : list Z) (res : Z),
    spec_digits s = Some ds ->
    Forall (fun d => d < b) ds ->
    convert_loop b s res
    = Ok (res * b ^ Z.of_nat (String.length s) + spec_positional_value b ds).
Proof.
  induction s as [|c s IH]; intros ds res Hds Hlt.
  - injection Hds as <-. cbn. f_equal. lia.
  - cbn [spec_digits] in Hds.
    destruct (spec_digit_value c) as [d|] eqn:Hd; [|discriminate].
    destruct (spec_digits s) as [ds'|] eqn:Hs; [|discriminate].
    injection Hds as <-.
    inversion Hlt as [|? ? Hd_lt Hrest]; subst.
    cbn [convert_loop]. rewrite getDigitValue_spec, Hd. cbn [bind].
    destruct (Z.geb_spec d b) as [Hge|_]; [lia|].
    rewrite (IH ds' _ eq_refl Hrest). f_equal.
    assert (Hlen : List.length ds' = String.length s).
    { clear -Hs. revert ds' Hs. induction s as [|c s IHs]; intros ds' Hs.
      - injection Hs as <-. reflexivity.
      - cbn [spec_digits] in Hs.
        destruct (spec_digit_value c); [|discriminate].
        destruct (spec_digits s) as [l|]; [|discriminate].
        injection Hs as <-. cbn. f_equal. now apply IHs. }
    cbn [spec_positional_value String.length]. rewrite Hlen.
    rewrite Nat2Z.inj_succ, Z.pow_succ_r by lia. ring.
Qed.

(** C3. For a non-empty digit string [s] and a base [b] in 2..62 whose
    digits, under the fixed alphabet, are all below [b], the decoder returns
    the positional value of [s] in base [b]; the three decodings the
    specification works out by hand come out as 76, 7 and 39. *)
Theorem convertToDecimalBigInt_positional :
  forall (StringToNumber : string -> jsnum),
    (forall (s : string) (base : jsval) (b : Z) (ds : list Z),
        s <> EmptyString ->
        Number StringToNumber base = NInt b ->
        2 <= b <= 62 ->
        spec_digits s = Some ds ->
        Forall (fun d => d < b) ds ->
        convertToDecimalBigInt StringToNumber (JString s) base
        = Ok (spec_positional_value b ds))
    /\ convertToDecimalBigInt StringToNumber (JString "1A") (JNumber (NInt 40)) = Ok 76
    /\ convertToDecimalBigInt StringToNumber (JString "111") (JNumber (NInt 2)) = Ok 7
    /\ convertToDecimalBigInt StringToNumber (JString "213") (JNumber (NInt 4)) = Ok 39.
Proof.
  intros T. split; [|repeat split; reflexivity].
  intros s base b ds Hne Hbase Hb Hds Hlt.
  unfold convertToDecimalBigInt. rewrite Hbase.
  destruct (Z.ltb_spec b 2) as [?|_]; [lia|].
  destruct (Z.gtb_spec b 62) as [?|_]; [lia|].
  cbn [orb].
  destruct s as [|c s]; [congruence|].
  cbn [String.length Nat.eqb].
  rewrite (convert_loop_positional b _ ds 0 Hds Hlt). reflexivity.
Qed.

Lemma convertToDecimalBigInt_positional_witness :
  convertToDecimalBigInt decimalStringToNumber (JString "1A") (JString "40")
  = Ok (spec_positional_value 40 [1; 36]).
Proof.
  apply (proj1 (convertToDecimalBigInt_positional decimalStringToNumber)
           "1A"%string (JString "40") 40 [1; 36]).
  - discriminate.
  - reflexivity.
  - lia.
  - reflexivity.
  - repeat constructor.
Defined.

(** ** The gcd helper *)

Lemma bigrem_nonzero (a b : Z) : b <> 0 -> bigrem a b = Ok (Z.rem a b).
Proof.
  intros Hb. unfold bigrem. destruct (Z.eqb_spec b 0); [contradiction|reflexivity].
Qed.

Lemma bigdiv_nonzero (a b : Z) : b <> 0 -> bigdiv a b = Ok (Z.quot a b).
Proof.
  intros Hb. unfold bigdiv. destruct (Z.eqb_spec b 0); [contradiction|reflexivity].
Qed.

Lemma gcd_loop_gcd (a b : Z) :
  0 <= a -> 0 <= b -> gcd_loop a b = Ok (Z.gcd a b).
Proof.
  funelim (gcd_loop a b); intros Ha Hb0.
  - subst b. rewrite Z.gcd_0_r, Z.abs_eq by assumption. reflexivity.
  - pose proof Hr as Hr'.
    rewrite bigrem_nonzero in Hr' by assumption. injection Hr' as Hr'.
    match goal with
    | IH : _ -> _ -> gcd_loop _ _ = Ok _ |- _ => rewrite IH
    end.
    + f_equal. rewrite <- Hr', Z.rem_mod_nonneg by lia.
      rewrite (Z.gcd_comm b), Z.gcd_mod by lia. apply Z.gcd_comm.
    + assumption.
    + rewrite <- Hr'. apply Z.rem_nonneg; lia.
  - pose proof Hr as Hr'.
    rewrite bigrem_nonzero in Hr' by assumption. discriminate.
Qed.

Lemma gcdBig_gcd (a b : Z) : gcdBig a b = Ok (Z.gcd a b).
Proof.
  unfold gcdBig.
  rewrite gcd_loop_gcd.
  - f_equal.
    destruct (Z.ltb_spec a 0), (Z.ltb_spec b 0);
      rewrite ?Z.gcd_opp_l, ?Z.gcd_opp_r; reflexivity.
  - destruct (Z.ltb_spec a 0); lia.
  - destruct (Z.ltb_spec b 0); lia.
Qed.

(** C8, as the code has it.  [gcdBig] never fails and returns the greatest
    common divisor of the absolute values of its arguments; on [0] and [x]
    that is the absolute value of [x], and on [0] and [0] it is [0]. *)
Theorem gcdBig_absolute_values :
  forall a b : Z,
    (exists g : Z,
        gcdBig a b = Ok g
        /\ g = Z.gcd (Z.abs a) (Z.abs b)
        /\ 0 <= g /\ (g | a) /\ (g | b)
        /\ (forall d : Z, (d | a) -> (d | b) -> (d | g)))
    /\ gcdBig 0 b = Ok (Z.abs b)
    /\ gcdBig 0 0 = Ok 0.
Proof.
  intros a b. split; [|split].
  - exists (Z.gcd a b). repeat split.
    + apply gcdBig_gcd.
    + now rewrite Z.gcd_abs_l, Z.gcd_abs_r.
    + apply Z.gcd_nonneg.
    + apply Z.gcd_divide_l.
    + apply Z.gcd_divide_r.
    + intros d Ha Hb. now apply Z.gcd_greatest.
  - rewrite gcdBig_gcd. reflexivity.
  - apply gcdBig_gcd.
Qed.

(** C8, as the claim has it, fails on both arguments zero: the result is
    [0], not [1]. *)
Lemma gcdBig_zero_zero_not_one :
  ~ (forall x : Z, gcdBig 0 x = Ok x) /\ gcdBig 0 0 <> Ok 1.
Proof.
  split.
  - intros H. specialize (H (-3)). vm_compute in H. discriminate.
  - vm_compute. discriminate.
Qed.

(** ** The empty point list *)

(** C10. On the empty list [evaluateAt] returns [0] at every [x0], while
    [findConstantTerm] fails with its no-points error. *)
Theorem empty_points_disagree :
  (forall x0 : Z, evaluateAt x0 [] = Ok 0)
  /\ findConstantTerm [] = Err NoPoints.
Proof.
  split; [intros x0|]; reflexivity.
Qed.

(** ** The two interpolation loops *)

Lemma eval_term_prod (points : list Point.t) (i : nat) (x0 xi : Z) :
  forall (j : nat) (termNum termDen : Z),
    eval_term points i j x0 xi termNum termDen
    = (termNum * skip_prod x0 points i j, termDen * skip_prod xi points i j).
Proof.
  induction points as [|pj rest IH]; intros j tn td; cbn [eval_term skip_prod].
  - f_equal; ring.
  - destruct (i =? j)%nat.
    + apply IH.
    + rewrite IH. f_equal; ring.
Qed.

Lemma fct_term_eval_term (points : list Point.t) (i : nat) (xi : Z) :
  forall (j : nat) (termNum termDen : Z),
    fct_term points i j xi termNum termDen
    = eval_term points i j 0 xi termNum termDen.
Proof.
  induction points as [|pj rest IH]; intros j tn td; cbn [fct_term eval_term].
  - reflexivity.
  - destruct (i =? j)%nat; [apply IH|].
    rewrite IH. reflexivity.
Qed.

Lemma fct_body_eval_body (points : list Point.t) (i : nat) (p : Point.t)
  (sumNum sumDen : Z) :
  fct_body points i p sumNum sumDen
  = map_err constant_term_error (eval_body points 0 i p sumNum sumDen).
Proof.
  unfold fct_body, eval_body. cbn zeta. rewrite fct_term_eval_term.
  destruct (eval_term _ _ _ _ _ _ _) as [tn td].
  destruct (td =? 0); [reflexivity|].
  rewrite gcdBig_gcd. cbn [bind]. unfold bigdiv.
  destruct (Z.gcd _ _ =? 0); reflexivity.
Qed.

Lemma fct_loop_eval_loop (points : list Point.t) :
  forall (rest : list Point.t) (i : nat) (sumNum sumDen : Z),
    fct_loop points i rest sumNum sumDen
    = map_err constant_term_error (eval_loop points 0 i rest sumNum sumDen).
Proof.
  induction rest as [|p rest IH]; intros i n d; cbn [fct_loop eval_loop].
  - reflexivity.
  - rewrite fct_body_eval_body.
    destruct (eval_body _ _ _ _ _ _) as [[n' d']|e]; cbn [map_err bind fst snd].
    + apply IH.
    + reflexivity.
Qed.

Lemma findConstantTerm_evaluateAt (points : list Point.t) :
  points <> [] ->
  findConstantTerm points = map_err constant_term_error (evaluateAt 0 points).
Proof.
  intros Hne. unfold findConstantTerm, evaluateAt.
  destruct points as [|p rest]; [contradiction|]. cbn [List.length Nat.eqb].
  rewrite fct_loop_eval_loop.
  destruct (eval_loop _ _ _ _ _ _) as [[n d]|e]; cbn [map_err bind fst snd];
    [|reflexivity].
  unfold bigrem, bigdiv. destruct (d =? 0); [reflexivity|]. cbn [bind].
  destruct (negb _); reflexivity.
Qed.

(** One step of the loop of [evaluateAt] from a state whose denominator is
    not zero: it stops on a zero basis denominator, and otherwise moves to
    a coprime pair that denotes the old fraction plus the new term. *)
Lemma eval_body_step (points : list Point.t) (x0 : Z) (i : nat) (p : Point.t)
  (n d : Z) :
  d <> 0 ->
  let D := basis points i (Point.x p) in
  let N := basis points i x0 in
  (D = 0 /\ eval_body points x0 i p n d = Err DuplicateX)
  \/ (D <> 0 /\ exists n' d' : Z,
         eval_body points x0 i p n d = Ok (n', d')
         /\ d' <> 0 /\ Z.gcd n' d' = 1
         /\ n' * (d * D) = (n * D + Point.y p * N * d) * d').
Proof.
  intros Hd D N. unfold eval_body. cbn zeta.
  rewrite eval_term_prod. fold (basis points i (Point.x p)) (basis points i x0).
  fold D N. rewrite Z.mul_1_l.
  destruct (Z.eqb_spec D 0) as [HD|HD]; [left; now split|right; split; [assumption|]].
  set (newNum := n * D + Point.y p * N * d).
  set (newDen := d * D).
  assert (HnewDen : newDen <> 0) by (unfold newDen; nia).
  rewrite gcdBig_gcd. cbn [bind].
  assert (Hg : Z.gcd newNum newDen <> 0).
  { intros H0. apply Z.gcd_eq_0_r in H0. contradiction. }
  destruct (Z.gcd_divide_l newNum newDen) as [q1 Hq1].
  destruct (Z.gcd_divide_r newNum newDen) as [q2 Hq2].
  pose proof (Z.gcd_div_gcd newNum newDen (Z.gcd newNum newDen) Hg eq_refl) as Hco.
  set (g := Z.gcd newNum newDen) in *.
  rewrite !bigdiv_nonzero by assumption. cbn [bind].
  assert (Hn : Z.quot newNum g = q1) by (rewrite Hq1; now apply Z.quot_mul).
  assert (Hm : Z.quot newDen g = q2) by (rewrite Hq2; now apply Z.quot_mul).
  assert (Hn' : newNum / g = q1) by (rewrite Hq1; now apply Z.div_mul).
  assert (Hm' : newDen / g = q2) by (rewrite Hq2; now apply Z.div_mul).
  rewrite Hn' , Hm' in Hco.
  exists q1, q2. rewrite Hn, Hm.
  repeat split.
  - intros ->. lia.
  - assumption.
  - rewrite Hq1, Hq2. ring.
Qed.

(** A step never divides by zero and never leaves a zero denominator. *)
Lemma eval_body_cases (points : list Point.t) (x0 : Z) (i : nat) (p : Point.t)
  (n d : Z) :
  d <> 0 ->
  eval_body points x0 i p n d = Err DuplicateX
  \/ exists n' d' : Z,
      eval_body points x0 i p n d = Ok (n', d') /\ d' <> 0 /\ Z.gcd n' d' = 1.
Proof.
  intros Hd.
  destruct (eval_body_step points x0 i p n d Hd) as [[_ H]|[_ (n' & d' & H & ? & ? & _)]].
  - now left.
  - right. now exists n', d'.
Qed.

Lemma eval_loop_cases (points : list Point.t) (x0 : Z) :
  forall (rest : list Point.t) (i : nat) (n d : Z),
    d <> 0 -> Z.gcd n d = 1 ->
    eval_loop points x0 i rest n d = Err DuplicateX
    \/ exists n' d' : Z,
        eval_loop points x0 i rest n d = Ok (n', d') /\ d' <> 0 /\ Z.gcd n' d' = 1.
Proof.
  induction rest as [|p rest IH]; intros i n d Hd Hco; cbn [eval_loop].
  - right. now exists n, d.
  - destruct (eval_body_cases points x0 i p n d Hd) as [H|(n' & d' & H & Hd' & Hco')];
      rewrite H; cbn [bind fst snd].
    + now left.
    + now apply IH.
Qed.

(** ** The Lagrange basis *)

Lemma skip_prod_zero (z : Z) (i : nat) :
  forall (points : list Point.t) (j : nat),
    skip_prod z points i j = 0
    <-> exists (m : nat) (q : Point.t),
        nth_error points m = Some q /\ (j + m)%nat <> i /\ z = Point.x q.
Proof.
  induction points as [|p rest IH]; intros j; cbn [skip_prod].
  - split; [lia|]. intros (m & q & H & _). destruct m; discriminate.
  - destruct (Nat.eqb_spec i j) as [Heq|Hneq].
    + rewrite IH. split.
      * intros (m & q & Hm & Hi & Hz). exists (S m), q. repeat split; [assumption|lia|assumption].
      * intros (m & q & Hm & Hi & Hz). destruct m as [|m]; [lia|].
        exists m, q. repeat split; [assumption|lia|assumption].
    + rewrite Z.mul_eq_0, IH. split.
      * intros [Hz|(m & q & Hm & Hi & Hz)].
        -- exists 0%nat, p. repeat split; [lia|lia].
        -- exists (S m), q. repeat split; [assumption|lia|assumption].
      * intros (m & q & Hm & Hi & Hz). destruct m as [|m].
        -- left. injection Hm as <-. lia.
        -- right. exists m, q. repeat split; [assumption|lia|assumption].
Qed.

(** The basis of index [i] vanishes at every other node. *)
Lemma basis_other_node (points : list Point.t) (i m : nat) (q : Point.t) :
  nth_error points m = Some q -> m <> i -> basis points i (Point.x q) = 0.
Proof.
  intros Hm Hi. apply skip_prod_zero. exists m, q. repeat split; [assumption|lia].
Qed.

(** With pairwise distinct abscissas no denominator is zero. *)
Lemma basis_own_node_nonzero (points : list Point.t) (i : nat) (p : Point.t) :
  NoDup (map Point.x points) ->
  nth_error points i = Some p ->
  basis points i (Point.x p) <> 0.
Proof.
  intros Hnd Hi H0. apply skip_prod_zero in H0 as (m & q & Hm & Hneq & Hx).
  rewrite NoDup_nth_error in Hnd.
  assert (Hlt : (i < List.length (map Point.x points))%nat).
  { rewrite length_map. apply nth_error_Some. congruence. }
  specialize (Hnd i m Hlt).
  rewrite !nth_error_map, Hi, Hm in Hnd. cbn in Hnd.
  rewrite Hx in Hnd. specialize (Hnd eq_refl). lia.
Qed.

Lemma den_prod_nonzero (points : list Point.t) :
  forall (rest : list Point.t) (i : nat) (T : Z),
    T <> 0 ->
    (forall (t : nat) (p : Point.t),
        nth_error rest t = Some p -> basis points (i + t) (Point.x p) <> 0) ->
    den_prod points i rest T <> 0.
Proof.
  induction rest as [|p rest IH]; intros i T HT Hb; cbn [den_prod].
  - assumption.
  - apply IH.
    + specialize (Hb 0%nat p eq_refl). rewrite Nat.add_0_r in Hb. nia.
    + intros t q Hq. specialize (Hb (S t) q Hq).
      now replace (i + S t)%nat with (S i + t)%nat in Hb by lia.
Qed.

(** The loop of [evaluateAt] against the sum that is never reduced: when
    every denominator met is not zero the loop ends in a fraction equal to
    that sum. *)
Lemma eval_loop_sum (points : list Point.t) (x0 : Z) :
  forall (rest : list Point.t) (i : nat) (n d S T : Z),
    d <> 0 -> T <> 0 -> n * T = S * d ->
    (forall (t : nat) (p : Point.t),
        nth_error rest t = Some p -> basis points (i + t) (Point.x p) <> 0) ->
    exists n' d' : Z,
      eval_loop points x0 i rest n d = Ok (n', d')
      /\ d' <> 0
      /\ n' * den_prod points i rest T = num_sum points x0 i rest S T * d'.
Proof.
  induction rest as [|p rest IH]; intros i n d S T Hd HT Heq Hb;
    cbn [eval_loop den_prod num_sum].
  - exists n, d. now repeat split.
  - pose proof (Hb 0%nat p eq_refl) as HD. rewrite Nat.add_0_r in HD.
    destruct (eval_body_step points x0 i p n d Hd)
      as [[HD0 _]|[_ (n1 & d1 & Hbody & Hd1 & _ & Hstep)]]; [contradiction|].
    rewrite Hbody. cbn [bind fst snd].
    apply IH.
    + assumption.
    + nia.
    + apply (Z.mul_reg_l _ _ d Hd).
      set (D := basis points i (Point.x p)) in *.
      set (N := basis points i x0) in *.
      transitivity (T * (n1 * (d * D))); [ring|]. rewrite Hstep.
      transitivity ((n * T) * D * d1 + Point.y p * N * d * T * d1); [ring|].
      rewrite Heq. ring.
    + intros t q Hq. specialize (Hb (Datatypes.S t) q Hq).
      now replace (i + Datatypes.S t)%nat with (Datatypes.S i + t)%nat in Hb by lia.
Qed.

(** The loop stops with the duplicate error as soon as a denominator is
    zero. *)
Lemma eval_loop_duplicate (points : list Point.t) (x0 : Z) :
  forall (rest : list Point.t) (i : nat) (n d : Z),
    d <> 0 ->
    (exists (t : nat) (p : Point.t),
        nth_error rest t = Some p /\ basis points (i + t) (Point.x p) = 0) ->
    eval_loop points x0 i rest n d = Err DuplicateX.
Proof.
  induction rest as [|p rest IH]; intros i n d Hd (t & q & Hq & H0).
  - destruct t; discriminate.
  - cbn [eval_loop].
    destruct (eval_body_step points x0 i p n d Hd)
      as [[_ Hbody]|[HD (n1 & d1 & Hbody & Hd1 & _ & _)]];
      rewrite Hbody; cbn [bind fst snd]; [reflexivity|].
    destruct t as [|t].
    + injection Hq as <-. rewrite Nat.add_0_r in H0. contradiction.
    + apply IH; [assumption|]. exists t, q. split; [assumption|].
      now replace (S i + t)%nat with (i + S t)%nat by lia.
Qed.

(** ** [evaluateAt] as a rational number *)

Lemma lag_den_nonzero (points : list Point.t) :
  NoDup (map Point.x points) -> lag_den points <> 0.
Proof.
  intros Hnd. unfold lag_den. apply den_prod_nonzero; [lia|].
  intros t p Hp. now apply basis_own_node_nonzero.
Qed.

Lemma evaluateAt_loop (points : list Point.t) (x0 : Z) :
  NoDup (map Point.x points) ->
  exists n d : Z,
    eval_loop points x0 0 points 0 1 = Ok (n, d)
    /\ d <> 0
    /\ n * lag_den points = lag_num points x0 * d.
Proof.
  intros Hnd. apply eval_loop_sum; [lia|lia|ring|].
  intros t p Hp. now apply basis_own_node_nonzero.
Qed.

(** With distinct abscissas [evaluateAt] returns [v] exactly when the sum
    of the terms is the integer [v]. *)
Lemma evaluateAt_integer (points : list Point.t) (x0 v : Z) :
  points <> [] ->
  NoDup (map Point.x points) ->
  v * lag_den points = lag_num points x0 ->
  evaluateAt x0 points = Ok v.
Proof.
  intros Hne Hnd Hv.
  destruct (evaluateAt_loop points x0 Hnd) as (n & d & Hloop & Hd & Heq).
  pose proof (lag_den_nonzero points Hnd) as HT.
  unfold evaluateAt. destruct points as [|p0 rest]; [contradiction|].
  cbn [List.length Nat.eqb]. rewrite Hloop. cbn [bind fst snd].
  destruct (Z.eqb_spec d 0); [contradiction|].
  assert (Hn : n = v * d).
  { apply (Z.mul_reg_r _ _ _ HT). rewrite Heq, <- Hv. ring. }
  rewrite bigrem_nonzero, bigdiv_nonzero by assumption. cbn [bind].
  rewrite Hn, Z.rem_mul, Z.quot_mul by assumption. reflexivity.
Qed.

Lemma evaluateAt_Ok (points : list Point.t) (x0 v : Z) :
  points <> [] ->
  NoDup (map Point.x points) ->
  evaluateAt x0 points = Ok v ->
  v * lag_den points = lag_num points x0.
Proof.
  intros Hne Hnd Hv.
  destruct (evaluateAt_loop points x0 Hnd) as (n & d & Hloop & Hd & Heq).
  unfold evaluateAt in Hv. destruct points as [|p0 rest]; [contradiction|].
  cbn [List.length Nat.eqb] in Hv. rewrite Hloop in Hv. cbn [bind fst snd] in Hv.
  destruct (Z.eqb_spec d 0); [contradiction|].
  rewrite bigrem_nonzero, bigdiv_nonzero in Hv by assumption. cbn [bind] in Hv.
  destruct (Z.eqb_spec (Z.rem n d) 0) as [Hr|Hr]; cbn [negb] in Hv; [|discriminate].
  injection Hv as <-.
  pose proof (Z.quot_rem' n d) as Hqr. rewrite Hr, Z.add_0_r in Hqr.
  apply (Z.mul_reg_r _ _ _ Hd). rewrite <- Heq. rewrite Hqr at 2. ring.
Qed.

(** With distinct abscissas the only failure left is a sum that is not an
    integer. *)
Lemma evaluateAt_cases (points : list Point.t) (x0 : Z) :
  NoDup (map Point.x points) ->
  (exists v : Z, evaluateAt x0 points = Ok v)
  \/ evaluateAt x0 points = Err NonIntegerEvaluation.
Proof.
  intros Hnd.
  destruct (evaluateAt_loop points x0 Hnd) as (n & d & Hloop & Hd & _).
  unfold evaluateAt. destruct points as [|p0 rest]; [left; now exists 0|].
  cbn [List.length Nat.eqb]. rewrite Hloop. cbn [bind fst snd].
  destruct (Z.eqb_spec d 0); [contradiction|].
  rewrite bigrem_nonzero, bigdiv_nonzero by assumption. cbn [bind].
  destruct (negb _); [now right|left; eauto].
Qed.

(** ** Polynomial functions *)

Lemma polyfun_ext (n : nat) (f g : Z -> Z) :
  (forall x : Z, g x = f x) -> polyfun n f -> polyfun n g.
Proof.
  intros Hfg (c & Hlen & Hc). exists c. split; [assumption|].
  intros x. now rewrite Hfg.
Qed.

Lemma polyfun_mono (n m : nat) (f : Z -> Z) :
  (n <= m)%nat -> polyfun n f -> polyfun m f.
Proof.
  intros Hnm (c & Hlen & Hc). exists c. split; [lia|assumption].
Qed.

Lemma polyfun_peval (c : list Z) : polyfun (List.length c) (peval c).
Proof. exists c. split; [lia|reflexivity]. Qed.

Lemma polyfun_const (a : Z) : polyfun 1 (fun _ => a).
Proof. exists [a]. split; [cbn; lia|]. intros x. cbn. ring. Qed.

Lemma peval_add (c1 : list Z) :
  forall c2 : list Z,
  exists c : list Z,
    List.length c = Nat.max (List.length c1) (List.length c2)
    /\ forall x : Z, peval c x = peval c1 x + peval c2 x.
Proof.
  induction c1 as [|a c1 IH]; intros c2.
  - exists c2. split; [reflexivity|]. intros x. cbn. ring.
  - destruct c2 as [|b c2].
    + exists (a :: c1). split; [reflexivity|]. intros x. cbn. ring.
    + destruct (IH c2) as (c & Hlen & Hc). exists (a + b :: c). split.
      * cbn [List.length]. lia.
      * intros x. cbn [peval]. rewrite Hc. ring.
Qed.

Lemma peval_scale (a : Z) (c : list Z) (x : Z) :
  peval (map (Z.mul a) c) x = a * peval c x.
Proof.
  induction c as [|b c IH]; cbn [map peval]; [ring|]. rewrite IH. ring.
Qed.

Lemma polyfun_add (n : nat) (f g : Z -> Z) :
  polyfun n f -> polyfun n g -> polyfun n (fun x => f x + g x).
Proof.
  intros (c1 & Hl1 & H1) (c2 & Hl2 & H2).
  destruct (peval_add c1 c2) as (c & Hlen & Hc).
  exists c. split; [lia|]. intros x. now rewrite Hc, H1, H2.
Qed.

Lemma polyfun_scale (n : nat) (a : Z) (f : Z -> Z) :
  polyfun n f -> polyfun n (fun x => a * f x).
Proof.
  intros (c & Hlen & Hc). exists (map (Z.mul a) c). split.
  - now rewrite length_map.
  - intros x. now rewrite peval_scale, Hc.
Qed.

Lemma polyfun_mul_linear (n : nat) (a : Z) (f : Z -> Z) :
  polyfun n f -> polyfun (S n) (fun x => (x - a) * f x).
Proof.
  intros (c & Hlen & Hc).
  destruct (peval_add (0 :: c) (map (Z.mul (- a)) c)) as (c' & Hlen' & Hc').
  exists c'. split.
  - rewrite Hlen', length_map. cbn [List.length]. lia.
  - intros x. rewrite Hc', peval_scale, Hc. cbn [peval]. ring.
Qed.

(** Division by [x - a], with the value at [a] as the remainder. *)
Lemma peval_divide_linear (a : Z) (c : list Z) :
  exists q : list Z,
    List.length q = Nat.pred (List.length c)
    /\ forall x : Z, peval c x = peval c a + (x - a) * peval q x.
Proof.
  induction c as [|c0 c IH].
  - exists []. split; [reflexivity|]. intros x. cbn. ring.
  - destruct IH as (q & Hlen & Hq). destruct c as [|c1 c].
    + exists []. split; [reflexivity|]. intros x. cbn. ring.
    + exists (peval (c1 :: c) a :: q). split.
      * cbn [List.length Nat.pred] in *. lia.
      * intros x. cbn [peval] in *. rewrite (Hq x). ring.
Qed.

(** A polynomial with at least as many distinct roots as coefficients is
    zero everywhere. *)
Lemma peval_roots (roots : list Z) :
  forall c : list Z,
    NoDup roots ->
    (List.length c <= List.length roots)%nat ->
    (forall r : Z, In r roots -> peval c r = 0) ->
    forall x : Z, peval c x = 0.
Proof.
  induction roots as [|a rs IH]; intros c Hnd Hlen Hroots x.
  - destruct c; [reflexivity|cbn in Hlen; lia].
  - destruct (peval_divide_linear a c) as (q & Hq_len & Hq).
    inversion Hnd as [|? ? Hnotin Hnd']; subst.
    rewrite Hq, (Hroots a (or_introl eq_refl)).
    rewrite (IH q Hnd'); [ring| |].
    + cbn [List.length] in Hlen. lia.
    + intros r Hr.
      pose proof (Hroots r (or_intror Hr)) as H0.
      rewrite Hq, (Hroots a (or_introl eq_refl)) in H0.
      assert (r - a <> 0) by (intros E; apply Hnotin; now replace a with r by lia).
      nia.
Qed.

Lemma polyfun_roots (n : nat) (f : Z -> Z) (roots : list Z) :
  polyfun n f ->
  NoDup roots ->
  (n <= List.length roots)%nat ->
  (forall r : Z, In r roots -> f r = 0) ->
  forall x : Z, f x = 0.
Proof.
  intros (c & Hlen & Hc) Hnd Hn Hroots x. rewrite Hc.
  apply (peval_roots roots); [assumption|lia|].
  intros r Hr. rewrite <- Hc. now apply Hroots.
Qed.

(** ** The Lagrange sum as a polynomial *)

Lemma skip_prod_polyfun (i : nat) :
  forall (points : list Point.t) (j : nat),
    polyfun (S (List.length points)) (fun z => skip_prod z points i j)
    /\ ((j <= i < j + List.length points)%nat ->
        polyfun (List.length points) (fun z => skip_prod z points i j)).
Proof.
  induction points as [|p rest IH]; intros j; cbn [skip_prod List.length].
  - split; [apply polyfun_const|lia].
  - destruct (IH (S j)) as [IH1 IH2].
    destruct (Nat.eqb_spec i j) as [Heq|Hneq].
    + split; [|intros _; assumption].
      apply (polyfun_mono (S (List.length rest))); [lia|assumption].
    + split.
      * now apply polyfun_mul_linear.
      * intros Hrange. apply polyfun_mul_linear, IH2. lia.
Qed.

Lemma basis_polyfun (points : list Point.t) (i : nat) :
  (i < List.length points)%nat ->
  polyfun (List.length points) (basis points i).
Proof.
  intros Hi. apply (skip_prod_polyfun i points 0). lia.
Qed.

Lemma num_sum_polyfun (points : list Point.t) :
  forall (rest : list Point.t) (i : nat) (S : Z -> Z) (T : Z),
    (i + List.length rest <= List.length points)%nat ->
    polyfun (List.length points) S ->
    polyfun (List.length points) (fun x0 => num_sum points x0 i rest (S x0) T).
Proof.
  induction rest as [|p rest IH]; intros i S T Hi HS; cbn [num_sum].
  - assumption.
  - cbn [List.length] in Hi.
    apply (IH (Datatypes.S i)
              (fun x0 => S x0 * basis points i (Point.x p)
                         + Point.y p * basis points i x0 * T)).
    + lia.
    + apply polyfun_add.
      * apply (polyfun_ext _ (fun x => basis points i (Point.x p) * S x));
          [intros x; ring|].
        now apply polyfun_scale.
      * apply (polyfun_ext _ (fun x => (Point.y p * T) * basis points i x));
          [intros x; ring|].
        apply polyfun_scale, basis_polyfun. lia.
Qed.

Lemma lag_num_polyfun (points : list Point.t) :
  polyfun (List.length points) (lag_num points).
Proof.
  unfold lag_num.
  apply (num_sum_polyfun points points 0 (fun _ => 0) 1); [lia|].
  exists []. split; [cbn; lia|reflexivity].
Qed.

(** At the abscissa of the point of index [m] the sum is that point's
    ordinate: the terms before [m] and after it vanish. *)
Lemma num_sum_node (points : list Point.t) (m : nat) (q : Point.t) :
  nth_error points m = Some q ->
  forall (rest : list Point.t) (i : nat) (S T : Z),
    (forall t : nat, nth_error rest t = nth_error points (i + t)) ->
    ((m < i)%nat -> forall c : Z, S = c * T ->
       num_sum points (Point.x q) i rest S T = c * den_prod points i rest T)
    /\ ((i <= m)%nat -> S = 0 ->
        num_sum points (Point.x q) i rest S T
        = Point.y q * den_prod points i rest T).
Proof.
  intros Hm. induction rest as [|p rest IH]; intros i S T Hrest;
    cbn [num_sum den_prod].
  - split; [intros _ c Hc; assumption|].
    intros Hi _. specialize (Hrest (m - i)%nat).
    replace (i + (m - i))%nat with m in Hrest by lia.
    rewrite Hm in Hrest. destruct (m - i)%nat; discriminate.
  - assert (Hrest' : forall t : nat,
               nth_error rest t = nth_error points (Datatypes.S i + t)).
    { intros t. specialize (Hrest (Datatypes.S t)).
      now replace (i + Datatypes.S t)%nat with (Datatypes.S i + t)%nat in Hrest by lia. }
    pose proof (Hrest 0%nat) as Hp. rewrite Nat.add_0_r in Hp. cbn in Hp.
    destruct (IH (Datatypes.S i)
                 (S * basis points i (Point.x p)
                  + Point.y p * basis points i (Point.x q) * T)
                 (T * basis points i (Point.x p)) Hrest') as [IHlt IHle].
    split.
    + intros Hlt c Hc. apply IHlt; [lia|].
      rewrite (basis_other_node points i m q Hm) by lia. rewrite Hc. ring.
    + intros Hle HS. destruct (Nat.eq_dec i m) as [<-|Hneq].
      * assert (p = q) by congruence. subst q.
        apply IHlt; [lia|]. rewrite HS. ring.
      * apply IHle; [lia|].
        rewrite (basis_other_node points i m q Hm) by lia. rewrite HS. ring.
Qed.

Lemma lag_num_node (points : list Point.t) (m : nat) (q : Point.t) :
  nth_error points m = Some q ->
  lag_num points (Point.x q) = Point.y q * lag_den points.
Proof.
  intros Hm. unfold lag_num, lag_den.
  apply (num_sum_node points m q Hm points 0 0 1); [reflexivity|lia|reflexivity].
Qed.

(** Lagrange: through points of a polynomial with no more coefficients
    than there are points, with distinct abscissas, the sum is that
    polynomial. *)
Lemma lag_num_poly (points : list Point.t) (c : list Z) :
  NoDup (map Point.x points) ->
  on_poly c points ->
  (List.length c <= List.length points)%nat ->
  forall x0 : Z, lag_num points x0 = peval c x0 * lag_den points.
Proof.
  intros Hnd Hon Hlen x0.
  enough (H : lag_num points x0 + (- lag_den points) * peval c x0 = 0) by lia.
  apply (polyfun_roots (List.length points)
           (fun x => lag_num points x + (- lag_den points) * peval c x)
           (map Point.x points)).
  - apply polyfun_add; [apply lag_num_polyfun|].
    apply polyfun_scale, (polyfun_mono (List.length c)); [assumption|].
    apply polyfun_peval.
  - assumption.
  - now rewrite length_map.
  - intros r Hr. apply in_map_iff in Hr as (q & <- & Hq).
    destruct (In_nth_error _ _ Hq) as [m Hm].
    rewrite (lag_num_node points m q Hm).
    unfold on_poly in Hon. rewrite Forall_forall in Hon.
    rewrite <- (Hon q Hq). ring.
Qed.

(** ** The interpolation engine *)

(** Interpolation at a node gives back the ordinate of the node. *)
Lemma evaluateAt_node (points : list Point.t) (m : nat) (q : Point.t) :
  NoDup (map Point.x points) ->
  nth_error points m = Some q ->
  evaluateAt (Point.x q) points = Ok (Point.y q).
Proof.
  intros Hnd Hm. apply evaluateAt_integer.
  - intros ->. destruct m; discriminate.
  - assumption.
  - symmetry. now apply (lag_num_node points m).
Qed.

(** On points of a polynomial the engine evaluates that polynomial. *)
Lemma evaluateAt_poly (points : list Point.t) (c : list Z) (x0 : Z) :
  points <> [] ->
  NoDup (map Point.x points) ->
  on_poly c points ->
  (List.length c <= List.length points)%nat ->
  evaluateAt x0 points = Ok (peval c x0).
Proof.
  intros Hne Hnd Hon Hlen. apply evaluateAt_integer; [assumption..|].
  symmetry. now apply lag_num_poly.
Qed.

Lemma findConstantTerm_poly (points : list Point.t) (c : list Z) :
  points <> [] ->
  NoDup (map Point.x points) ->
  on_poly c points ->
  (List.length c <= List.length points)%nat ->
  findConstantTerm points = Ok (peval c 0).
Proof.
  intros Hne Hnd Hon Hlen.
  rewrite findConstantTerm_evaluateAt by assumption.
  now rewrite (evaluateAt_poly points c 0).
Qed.

Lemma eval_loop_app (points : list Point.t) (x0 : Z) :
  forall (l1 l2 : list Point.t) (i : nat) (n d : Z),
    eval_loop points x0 i (l1 ++ l2) n d
    = (s <- eval_loop points x0 i l1 n d ;;
       eval_loop points x0 (i + List.length l1) l2 (fst s) (snd s)).
Proof.
  induction l1 as [|p l1 IH]; intros l2 i n d; cbn [app eval_loop List.length bind].
  - cbn [fst snd]. now rewrite Nat.add_0_r.
  - destruct (eval_body points x0 i p n d) as [[n1 d1]|e]; cbn [bind fst snd].
    + rewrite IH. now replace (S i + List.length l1)%nat
                        with (i + S (List.length l1))%nat by lia.
    + reflexivity.
Qed.

Lemma evaluateAt_not_range_error (points : list Point.t) (x0 : Z) :
  evaluateAt x0 points <> Err RangeErrorDivisionByZero.
Proof.
  unfold evaluateAt. destruct points as [|p rest]; [discriminate|].
  cbn [List.length Nat.eqb].
  destruct (eval_loop_cases (p :: rest) x0 (p :: rest) 0 0 1)
    as [H|(n & d & H & Hd & _)]; [lia|reflexivity| |]; rewrite H; cbn [bind fst snd].
  - discriminate.
  - destruct (Z.eqb_spec d 0); [contradiction|].
    rewrite bigrem_nonzero, bigdiv_nonzero by assumption. cbn [bind].
    destruct (negb _); discriminate.
Qed.

Lemma findConstantTerm_not_range_error (points : list Point.t) :
  findConstantTerm points <> Err RangeErrorDivisionByZero.
Proof.
  destruct points as [|p rest]; [discriminate|].
  rewrite findConstantTerm_evaluateAt by discriminate.
  pose proof (evaluateAt_not_range_error (p :: rest) 0) as H.
  destruct (evaluateAt 0 (p :: rest)) as [v|e]; cbn [map_err]; [discriminate|].
  destruct e; cbn; congruence.
Qed.

Lemma evaluateAt_duplicate (points : list Point.t) (x0 : Z) (i j : nat)
  (p q : Point.t) :
  i <> j ->
  nth_error points i = Some p ->
  nth_error points j = Some q ->
  Point.x p = Point.x q ->
  evaluateAt x0 points = Err DuplicateX.
Proof.
  intros Hij Hp Hq Hx. unfold evaluateAt.
  destruct points as [|p0 rest]; [destruct i; discriminate|].
  cbn [List.length Nat.eqb].
  rewrite (eval_loop_duplicate (p0 :: rest) x0 (p0 :: rest) 0 0 1); [reflexivity|lia|].
  exists i, p. split; [assumption|]. cbn [Nat.add].
  rewrite Hx. apply (basis_other_node _ i j q); [assumption|lia].
Qed.

(** C5. Two points with the same abscissa make both evaluators fail with
    their duplicate-x error, and no point list, at no [x0], makes either of
    them divide by zero. *)
Theorem duplicate_abscissa_before_division :
  forall (points : list Point.t) (x0 : Z),
    (findConstantTerm points <> Err RangeErrorDivisionByZero
     /\ evaluateAt x0 points <> Err RangeErrorDivisionByZero)
    /\ forall (i j : nat) (p q : Point.t),
        i <> j ->
        nth_error points i = Some p ->
        nth_error points j = Some q ->
        Point.x p = Point.x q ->
        findConstantTerm points = Err DuplicateXDenominatorZero
        /\ evaluateAt x0 points = Err DuplicateX.
Proof.
  intros points x0. split.
  - split; [apply findConstantTerm_not_range_error|apply evaluateAt_not_range_error].
  - intros i j p q Hij Hp Hq Hx. split.
    + rewrite findConstantTerm_evaluateAt by (intros ->; destruct i; discriminate).
      now rewrite (evaluateAt_duplicate points 0 i j p q).
    + now apply (evaluateAt_duplicate points x0 i j p q).
Qed.

Lemma duplicate_abscissa_before_division_witness :
  findConstantTerm [Point.mk 1 4; Point.mk 2 7; Point.mk 1 9]
  = Err DuplicateXDenominatorZero
  /\ evaluateAt 5 [Point.mk 1 4; Point.mk 2 7; Point.mk 1 9] = Err DuplicateX.
Proof.
  apply (proj2 (duplicate_abscissa_before_division
                  [Point.mk 1 4; Point.mk 2 7; Point.mk 1 9] 5)
           0%nat 2%nat (Point.mk 1 4) (Point.mk 1 9)).
  - lia.
  - reflexivity.
  - reflexivity.
  - reflexivity.
Defined.

(** C7, as the code has it.  Whatever prefix [done] of the points the loop
    of either evaluator has folded in, the running fraction has a non-zero
    denominator and is in lowest terms, and the run goes on from that state
    with the other points; the sign of the denominator is whatever the
    products left. *)
Theorem running_fraction_lowest_terms :
  forall (points done rest : list Point.t) (x0 n d : Z),
    points = done ++ rest ->
    (eval_loop points x0 0 done 0 1 = Ok (n, d) ->
     d <> 0 /\ Z.gcd n d = 1
     /\ eval_loop points x0 0 points 0 1
        = eval_loop points x0 (List.length done) rest n d)
    /\ (fct_loop points 0 done 0 1 = Ok (n, d) ->
        d <> 0 /\ Z.gcd n d = 1
        /\ fct_loop points 0 points 0 1
           = fct_loop points (List.length done) rest n d).
Proof.
  intros points done rest x0 n d Hsplit.
  assert (Heval : forall x1 : Z,
             eval_loop points x1 0 done 0 1 = Ok (n, d) ->
             d <> 0 /\ Z.gcd n d = 1
             /\ eval_loop points x1 0 points 0 1
                = eval_loop points x1 (List.length done) rest n d).
  { intros x1 H.
    destruct (eval_loop_cases points x1 done 0 0 1)
      as [E|(n' & d' & E & Hd & Hco)]; [lia|reflexivity|congruence|].
    rewrite E in H. injection H as -> ->. repeat split; [assumption..|].
    rewrite Hsplit at 2. rewrite eval_loop_app, E. reflexivity. }
  split; [apply Heval|].
  intros H. rewrite fct_loop_eval_loop in H.
  destruct (eval_loop points 0 0 done 0 1) as [[n' d']|e] eqn:E; [|discriminate].
  cbn [map_err] in H. injection H as -> ->.
  destruct (Heval 0 E) as (Hd & Hco & Hrun).
  repeat split; [assumption..|].
  now rewrite !fct_loop_eval_loop, Hrun.
Qed.

Lemma running_fraction_lowest_terms_witness :
  -1 <> 0 /\ Z.gcd 9 (-1) = 1
  /\ fct_loop example_points 0 example_points 0 1
     = fct_loop example_points 2 [Point.mk 3 12] 9 (-1).
Proof.
  apply (proj2 (running_fraction_lowest_terms example_points
                  [Point.mk 1 4; Point.mk 2 7] [Point.mk 3 12] 0 9 (-1) eq_refl)).
  reflexivity.
Defined.

(** C7, as the claim has it, fails on the example of the specification:
    after the second of its three terms the running fraction is 9 / -1. *)
Lemma running_denominator_negative :
  ~ (forall (points done rest : list Point.t) (n d : Z),
        points = done ++ rest ->
        fct_loop points 0 done 0 1 = Ok (n, d) ->
        0 < d /\ Z.gcd n d = 1).
Proof.
  intros H.
  specialize (H example_points [Point.mk 1 4; Point.mk 2 7] [Point.mk 3 12]
                9 (-1) eq_refl eq_refl).
  lia.
Qed.

(** Two lists of points with distinct abscissas, the first no longer than
    the second and reproducing every point of the second, have one Lagrange
    sum. *)
Lemma lag_cross (p1 p2 : list Point.t) :
  NoDup (map Point.x p2) ->
  (List.length p1 <= List.length p2)%nat ->
  (forall q : Point.t, In q p2 -> Point.y q * lag_den p1 = lag_num p1 (Point.x q)) ->
  forall x0 : Z, lag_num p1 x0 * lag_den p2 = lag_num p2 x0 * lag_den p1.
Proof.
  intros Hnd Hlen Hrep x0.
  enough (H : lag_den p2 * lag_num p1 x0 + (- lag_den p1) * lag_num p2 x0 = 0) by lia.
  apply (polyfun_roots (List.length p2)
           (fun x => lag_den p2 * lag_num p1 x + (- lag_den p1) * lag_num p2 x)
           (map Point.x p2)).
  - apply polyfun_add; apply polyfun_scale; [|apply lag_num_polyfun].
    apply (polyfun_mono (List.length p1)); [assumption|apply lag_num_polyfun].
  - assumption.
  - now rewrite length_map.
  - intros r Hr. apply in_map_iff in Hr as (q & <- & Hq).
    destruct (In_nth_error _ _ Hq) as [m Hm].
    rewrite (lag_num_node p2 m q Hm), <- (Hrep q Hq). ring.
Qed.

Lemma evaluateAt_agree (p1 p2 : list Point.t) :
  p1 <> [] ->
  NoDup (map Point.x p1) ->
  NoDup (map Point.x p2) ->
  (List.length p1 <= List.length p2)%nat ->
  (forall q : Point.t, In q p2 -> evaluateAt (Point.x q) p1 = Ok (Point.y q)) ->
  forall x0 : Z, evaluateAt x0 p2 = evaluateAt x0 p1.
Proof.
  intros Hne1 Hnd1 Hnd2 Hlen Hrep x0.
  assert (Hne2 : p2 <> []).
  { intros ->. destruct p1; [contradiction|cbn in Hlen; lia]. }
  pose proof (lag_den_nonzero p1 Hnd1) as Hd1.
  pose proof (lag_den_nonzero p2 Hnd2) as Hd2.
  assert (Hcross : lag_num p1 x0 * lag_den p2 = lag_num p2 x0 * lag_den p1).
  { apply lag_cross; [assumption..|].
    intros q Hq. apply evaluateAt_Ok; [assumption..|]. now apply Hrep. }
  destruct (evaluateAt_cases p1 x0 Hnd1) as [[v Hv]|He1].
  - rewrite Hv. apply evaluateAt_integer; [assumption..|].
    apply evaluateAt_Ok in Hv; [|assumption..].
    apply (Z.mul_reg_r _ _ _ Hd1). rewrite <- Hcross, <- Hv. ring.
  - rewrite He1.
    destruct (evaluateAt_cases p2 x0 Hnd2) as [[v Hv]|He2]; [|assumption].
    exfalso.
    assert (Hv1 : evaluateAt x0 p1 = Ok v).
    { apply evaluateAt_integer; [assumption..|].
      apply evaluateAt_Ok in Hv; [|assumption..].
      apply (Z.mul_reg_r _ _ _ Hd2). rewrite Hcross, <- Hv. ring. }
    congruence.
Qed.

(** ** Sorting, slicing and the duplicate check *)

Lemma insert_by_x_perm (p : Point.t) (l : list Point.t) :
  Permutation (p :: l) (insert_by_x p l).
Proof.
  induction l as [|q l IH]; cbn [insert_by_x]; [reflexivity|].
  destruct (Point.x p - Point.x q <=? 0); [reflexivity|].
  rewrite perm_swap. now apply perm_skip.
Qed.

Lemma sort_by_x_perm (l : list Point.t) : Permutation l (sort_by_x l).
Proof.
  induction l as [|p l IH]; cbn [sort_by_x]; [reflexivity|].
  rewrite <- insert_by_x_perm. now apply perm_skip.
Qed.

Lemma insert_by_x_sorted (p : Point.t) (l : list Point.t) :
  StronglySorted x_le l -> StronglySorted x_le (insert_by_x p l).
Proof.
  induction l as [|q l IH]; intros Hs; cbn [insert_by_x].
  - repeat constructor.
  - inversion Hs as [|? ? Hl Hq]; subst.
    destruct (Z.leb_spec (Point.x p - Point.x q) 0) as [Hle|Hgt].
    + constructor; [assumption|]. constructor; [unfold x_le; lia|].
      rewrite Forall_forall in *. intros r Hr. specialize (Hq r Hr).
      unfold x_le in *. lia.
    + constructor; [now apply IH|].
      rewrite Forall_forall in *. intros r Hr.
      apply (Permutation_in _ (Permutation_sym (insert_by_x_perm p l))) in Hr.
      destruct Hr as [<-|Hr]; [unfold x_le; lia|now apply Hq].
Qed.

Lemma sort_by_x_sorted (l : list Point.t) : StronglySorted x_le (sort_by_x l).
Proof.
  induction l as [|p l IH]; cbn [sort_by_x]; [constructor|].
  now apply insert_by_x_sorted.
Qed.



Lemma slice0_count {A : Type} (arr : list A) (k : Z) :
  0 <= k <= Z.of_nat (List.length arr) ->
  slice0 arr k = firstn (Z.to_nat k) arr.
Proof.
  intros Hk. unfold slice0.
  destruct (Z.ltb_spec k 0); [lia|]. now rewrite Z.min_l by lia.
Qed.

Lemma slice0_prefix {A : Type} (arr : list A) (k : Z) :
  exists rest : list A, arr = slice0 arr k ++ rest.
Proof.
  unfold slice0. eexists. symmetry. apply firstn_skipn.
Qed.

Lemma nodup_length_le (xs : list Z) :
  (List.length (nodup Z.eq_dec xs) <= List.length xs)%nat.
Proof.
  induction xs as [|a xs IH]; cbn [nodup List.length]; [lia|].
  destruct (in_dec Z.eq_dec a xs); cbn [List.length]; lia.
Qed.

Lemma set_size_NoDup (xs : list Z) :
  set_size xs = List.length xs <-> NoDup xs.
Proof.
  unfold set_size. split.
  - induction xs as [|a xs IH]; cbn [nodup List.length]; [constructor|].
    pose proof (nodup_length_le xs) as Hle.
    destruct (in_dec Z.eq_dec a xs) as [Hin|Hnotin]; cbn [List.length]; [lia|].
    intros H. constructor; [assumption|]. apply IH. lia.
  - intros H. now rewrite nodup_fixed_point.
Qed.

Lemma NoDup_map_prefix (l1 l2 : list Point.t) :
  NoDup (map Point.x (l1 ++ l2)) -> NoDup (map Point.x l1).
Proof.
  rewrite map_app. apply NoDup_app_remove_r.
Qed.

(** ** Verification *)

Lemma verifyAllPoints_true (selected : list Point.t) :
  forall allPoints : list Point.t,
    verifyAllPoints selected allPoints = Ok true
    <-> Forall (fun p => evaluateAt (Point.x p) selected = Ok (Point.y p)) allPoints.
Proof.
  induction allPoints as [|p rest IH]; cbn [verifyAllPoints].
  - split; [constructor|reflexivity].
  - split.
    + destruct (evaluateAt (Point.x p) selected) as [v|e] eqn:Hv; cbn [bind];
        [|discriminate].
      destruct (Z.eqb_spec v (Point.y p)) as [Heq|Hne]; cbn [negb]; [|discriminate].
      intros H. constructor; [congruence|now apply IH].
    + intros H. inversion H as [|? ? Hp Hrest]; subst.
      rewrite Hp. cbn [bind]. rewrite Z.eqb_refl. cbn [negb]. now apply IH.
Qed.

(** Against a subset with distinct abscissas verification ends in a
    verdict or in a value that is not an integer. *)
Lemma verifyAllPoints_cases (selected : list Point.t) :
  NoDup (map Point.x selected) ->
  forall allPoints : list Point.t,
    (exists b : bool, verifyAllPoints selected allPoints = Ok b)
    \/ verifyAllPoints selected allPoints = Err NonIntegerEvaluation.
Proof.
  intros Hnd. induction allPoints as [|p rest IH]; cbn [verifyAllPoints].
  - left. now exists true.
  - destruct (evaluateAt_cases selected (Point.x p) Hnd) as [[v Hv]|He].
    + rewrite Hv. cbn [bind]. destruct (negb _); [left; now exists false|assumption].
    + rewrite He. now right.
Qed.

(** When every evaluation returns a value verification returns a verdict. *)
Lemma verifyAllPoints_total (selected : list Point.t) :
  forall allPoints : list Point.t,
    (forall q : Point.t, In q allPoints ->
       exists v : Z, evaluateAt (Point.x q) selected = Ok v) ->
    exists b : bool, verifyAllPoints selected allPoints = Ok b.
Proof.
  induction allPoints as [|p rest IH]; intros Hall; cbn [verifyAllPoints].
  - now exists true.
  - destruct (Hall p (or_introl eq_refl)) as [v Hv]. rewrite Hv. cbn [bind].
    destruct (negb _); [now exists false|].
    apply IH. intros q Hq. apply Hall. now right.
Qed.

Lemma findConstantTerm_cases (points : list Point.t) :
  NoDup (map Point.x points) ->
  (exists v : Z, findConstantTerm points = Ok v)
  \/ findConstantTerm points = Err NoPoints
  \/ findConstantTerm points = Err ConstantTermNotInteger.
Proof.
  intros Hnd. destruct points as [|p rest]; [right; now left|].
  rewrite findConstantTerm_evaluateAt by discriminate.
  destruct (evaluateAt_cases (p :: rest) 0 Hnd) as [[v Hv]|He].
  - rewrite Hv. left. now exists v.
  - rewrite He. right. now right.
Qed.

(** ** The pipeline *)

Section PipelineFacts.

Variable StringToNumber : string -> jsnum.

(** [solve] once the counts are read and the points are decoded. *)
Lemma solve_decoded (data : Input.t) (ks : Keys.t) (n k : Z) (pts : list Point.t) :
  Input.keys data = Some ks ->
  isInteger (Keys.n ks) = Some n ->
  isInteger (Keys.k ks) = Some k ->
  decode_props StringToNumber (Input.props data) [] = Ok pts ->
  solve StringToNumber data =
  if Z.of_nat (List.length pts) <? k then Err NeedAtLeastK
  else
    let selected := slice0 (sort_by_x pts) k in
    if negb (set_size (map Point.x selected) =? List.length selected)%nat
    then Err DuplicateSelected
    else
      constantTerm <- findConstantTerm selected ;;
      ok <- verifyAllPoints selected (sort_by_x pts) ;;
      if negb ok then Err VerificationFailed
      else Ok (Solution.mk constantTerm selected (sort_by_x pts)).
Proof.
  intros Hks Hn Hk Hdec. unfold solve. rewrite Hks, Hn, Hk, Hdec. reflexivity.
Qed.

(** What a successful [solve] went through. *)
Lemma solve_Ok_inv (data : Input.t) (r : Solution.t) :
  solve StringToNumber data = Ok r ->
  exists (ks : Keys.t) (n k : Z) (pts : list Point.t),
    Input.keys data = Some ks
    /\ isInteger (Keys.n ks) = Some n
    /\ isInteger (Keys.k ks) = Some k
    /\ decode_props StringToNumber (Input.props data) [] = Ok pts
    /\ k <= Z.of_nat (List.length pts)
    /\ Solution.allPoints r = sort_by_x pts
    /\ Solution.selectedPoints r = slice0 (sort_by_x pts) k
    /\ NoDup (map Point.x (Solution.selectedPoints r))
    /\ findConstantTerm (Solution.selectedPoints r) = Ok (Solution.constantTerm r)
    /\ verifyAllPoints (Solution.selectedPoints r) (Solution.allPoints r) = Ok true.
Proof.
  intros H. unfold solve in H.
  destruct (Input.keys data) as [ks|] eqn:Hks; [|discriminate].
  destruct (isInteger (Keys.n ks)) as [n|] eqn:Hn; [|discriminate].
  destruct (isInteger (Keys.k ks)) as [k|] eqn:Hk; [|discriminate].
  destruct (decode_props StringToNumber (Input.props data) []) as [pts|e] eqn:Hdec;
    [|discriminate].
  cbn [bind] in H.
  destruct (Z.ltb_spec (Z.of_nat (List.length pts)) k) as [Hlt|Hge]; [discriminate|].
  cbn zeta in H.
  destruct (Nat.eqb_spec (set_size (map Point.x (slice0 (sort_by_x pts) k)))
              (List.length (slice0 (sort_by_x pts) k))) as [Hset|Hset];
    cbn [negb] in H; [|discriminate].
  destruct (findConstantTerm (slice0 (sort_by_x pts) k)) as [c|e] eqn:Hc;
    [|discriminate].
  cbn [bind] in H.
  destruct (verifyAllPoints (slice0 (sort_by_x pts) k) (sort_by_x pts))
    as [[|]|e] eqn:Hv; cbn [bind negb] in H; try discriminate.
  injection H as <-. cbn [Solution.allPoints Solution.selectedPoints Solution.constantTerm].
  exists ks, n, k, pts. repeat split; try assumption.
  rewrite <- (length_map Point.x) in Hset. now apply set_size_NoDup.
Qed.

End PipelineFacts.

Lemma findConstantTerm_cases_nonempty (points : list Point.t) :
  points <> [] ->
  NoDup (map Point.x points) ->
  (exists v : Z, findConstantTerm points = Ok v)
  \/ findConstantTerm points = Err ConstantTermNotInteger.
Proof.
  intros Hne Hnd. rewrite findConstantTerm_evaluateAt by assumption.
  destruct (evaluateAt_cases points 0 Hnd) as [[v Hv]|He].
  - rewrite Hv. left. now exists v.
  - rewrite He. now right.
Qed.

Lemma sort_by_x_NoDup (pts : list Point.t) :
  NoDup (map Point.x pts) -> NoDup (map Point.x (sort_by_x pts)).
Proof.
  apply Permutation_NoDup, Permutation_map, sort_by_x_perm.
Qed.

Lemma sort_by_x_length (pts : list Point.t) :
  List.length (sort_by_x pts) = List.length pts.
Proof.
  symmetry. apply Permutation_length, sort_by_x_perm.
Qed.

Lemma slice0_NoDup (pts : list Point.t) (k : Z) :
  NoDup (map Point.x pts) -> NoDup (map Point.x (slice0 pts k)).
Proof.
  intros Hnd. destruct (slice0_prefix pts k) as [rest Hrest].
  rewrite Hrest in Hnd. now apply NoDup_map_prefix in Hnd.
Qed.

Lemma slice0_In (pts : list Point.t) (k : Z) (p : Point.t) :
  In p (slice0 pts k) -> In p pts.
Proof.
  intros Hin. destruct (slice0_prefix pts k) as [rest Hrest].
  rewrite Hrest. apply in_or_app. now left.
Qed.

Lemma selected_In (pts : list Point.t) (k : Z) (p : Point.t) :
  In p (slice0 (sort_by_x pts) k) -> In p pts.
Proof.
  intros Hin. apply slice0_In in Hin.
  now apply (Permutation_in _ (Permutation_sym (sort_by_x_perm pts))).
Qed.

Section Claims.

Variable StringToNumber : string -> jsnum.

(** C1, as the code has it.  Let all the decoded points lie on a
    polynomial with [d + 1] integer coefficients, at least [d + 1] of
    them, and let [k] be [d + 1].  When the [d + 1] points of smallest
    abscissa, the ones [solve] selects, have pairwise distinct abscissas,
    as they do when all the abscissas of the data are pairwise distinct,
    [solve] succeeds, its constant term is the value of the polynomial at
    0, and the verification of all the points, the extra ones too, passes.
    When two of the selected points share an abscissa [solve] fails with
    its duplicate error. *)
Theorem solve_recovers_constant_term :
  forall (data : Input.t) (ks : Keys.t) (n : Z) (d : nat)
         (pts : list Point.t) (c : list Z),
    Input.keys data = Some ks ->
    isInteger (Keys.n ks) = Some n ->
    isInteger (Keys.k ks) = Some (Z.of_nat (S d)) ->
    decode_props StringToNumber (Input.props data) [] = Ok pts ->
    List.length c = S d ->
    (S d <= List.length pts)%nat ->
    on_poly c pts ->
    (NoDup (map Point.x (firstn (S d) (sort_by_x pts))) ->
     solve StringToNumber data
     = Ok (Solution.mk (peval c 0) (firstn (S d) (sort_by_x pts)) (sort_by_x pts))
     /\ verifyAllPoints (firstn (S d) (sort_by_x pts)) (sort_by_x pts) = Ok true)
    /\ (NoDup (map Point.x pts) ->
        NoDup (map Point.x (firstn (S d) (sort_by_x pts))))
    /\ (~ NoDup (map Point.x (firstn (S d) (sort_by_x pts))) ->
        solve StringToNumber data = Err DuplicateSelected).
Proof.
  intros data ks n d pts c Hks Hn Hk Hdec Hc Hlen Hon.
  set (sel := firstn (S d) (sort_by_x pts)).
  assert (Hslice : slice0 (sort_by_x pts) (Z.of_nat (S d)) = sel).
  { rewrite slice0_count by (rewrite sort_by_x_length; lia).
    now rewrite Nat2Z.id. }
  assert (Hsel_len : List.length sel = S d).
  { unfold sel. rewrite length_firstn, sort_by_x_length. lia. }
  assert (Hsel_ne : sel <> []) by (intros E; rewrite E in Hsel_len; discriminate).
  assert (Hsel_on : on_poly c sel).
  { unfold on_poly in *. rewrite Forall_forall in *. intros p Hp.
    apply Hon. rewrite <- Hslice in Hp. now apply selected_In in Hp. }
  rewrite (solve_decoded StringToNumber data ks n _ pts Hks Hn Hk Hdec).
  destruct (Z.ltb_spec (Z.of_nat (List.length pts)) (Z.of_nat (S d))); [lia|].
  cbn zeta. rewrite Hslice.
  split; [|split].
  - intros Hsel_nd.
    assert (Hver : verifyAllPoints sel (sort_by_x pts) = Ok true).
    { apply verifyAllPoints_true. rewrite Forall_forall. intros p Hp.
      rewrite (evaluateAt_poly sel c) by (try assumption; lia).
      unfold on_poly in Hon. rewrite Forall_forall in Hon.
      rewrite (Hon p); [reflexivity|].
      now apply (Permutation_in _ (Permutation_sym (sort_by_x_perm pts))). }
    split; [|assumption].
    rewrite (proj2 (set_size_NoDup _) Hsel_nd), length_map, Nat.eqb_refl. cbn [negb].
    rewrite (findConstantTerm_poly sel c) by (try assumption; lia).
    cbn [bind]. rewrite Hver. reflexivity.
  - intros Hnd. rewrite <- Hslice. now apply slice0_NoDup, sort_by_x_NoDup.
  - intros Hdup.
    destruct (Nat.eqb_spec (set_size (map Point.x sel)) (List.length sel))
      as [Hset|Hset]; [|reflexivity].
    exfalso. apply Hdup. apply set_size_NoDup. now rewrite length_map.
Qed.

(** C6. After a successful [solve], [evaluateAt] at the abscissa of a
    selected point, over the selected subset, returns the ordinate of
    that point. *)
Theorem selected_points_reproduced :
  forall (data : Input.t) (r : Solution.t) (p : Point.t),
    solve StringToNumber data = Ok r ->
    In p (Solution.selectedPoints r) ->
    evaluateAt (Point.x p) (Solution.selectedPoints r) = Ok (Point.y p).
Proof.
  intros data r p Hsolve Hin.
  destruct (solve_Ok_inv StringToNumber data r Hsolve)
    as (ks & n & k & pts & _ & _ & _ & _ & _ & _ & _ & Hnd & _ & _).
  destruct (In_nth_error _ _ Hin) as [m Hm].
  now apply (evaluateAt_node _ m).
Qed.


(** Tampering is caught: take points with pairwise distinct abscissas,
    more than [k] of them, that the first [k] of them in ascending order
    reproduce; with one ordinate changed, the verification cannot pass. *)
Lemma tampered_not_verified (k : nat) (l1 l2 : list Point.t) (xm ym ym' : Z) :
  let pts0 := l1 ++ Point.mk xm ym :: l2 in
  let pts := l1 ++ Point.mk xm ym' :: l2 in
  (1 <= k < List.length pts)%nat ->
  NoDup (map Point.x pts) ->
  Forall (fun p => evaluateAt (Point.x p) (firstn k (sort_by_x pts0))
                   = Ok (Point.y p)) pts0 ->
  ym' <> ym ->
  verifyAllPoints (firstn k (sort_by_x pts)) (sort_by_x pts) <> Ok true.
Proof.
  intros pts0 pts Hk Hnd Hrep0 Hym Hver.
  assert (Hxs : map Point.x pts0 = map Point.x pts).
  { unfold pts0, pts. rewrite !map_app. reflexivity. }
  assert (Hlen0 : List.length pts0 = List.length pts).
  { unfold pts0, pts. rewrite !length_app. reflexivity. }
  assert (Hnd0 : NoDup (map Point.x pts0)) by now rewrite Hxs.
  set (sel0 := firstn k (sort_by_x pts0)) in *.
  set (sel := firstn k (sort_by_x pts)) in *.
  assert (Hprefix : forall l : list Point.t,
             NoDup (map Point.x l) -> (1 <= k < List.length l)%nat ->
             NoDup (map Point.x (firstn k (sort_by_x l)))
             /\ List.length (firstn k (sort_by_x l)) = k
             /\ firstn k (sort_by_x l) <> []).
  { intros l Hl Hkl.
    assert (Hlen : List.length (firstn k (sort_by_x l)) = k)
      by (rewrite length_firstn, sort_by_x_length; lia).
    repeat split; [|assumption|].
    - apply sort_by_x_NoDup in Hl.
      rewrite <- (firstn_skipn k (sort_by_x l)) in Hl.
      now apply NoDup_map_prefix in Hl.
    - intros E. rewrite E in Hlen. cbn in Hlen. lia. }
  destruct (Hprefix pts0 Hnd0 ltac:(lia)) as (Hsel0_nd & Hsel0_len & Hsel0_ne).
  destruct (Hprefix pts Hnd Hk) as (Hsel_nd & Hsel_len & Hsel_ne).
  rewrite verifyAllPoints_true, Forall_forall in Hver.
  rewrite Forall_forall in Hrep0.
  assert (Hrep : forall p : Point.t,
             In p pts -> evaluateAt (Point.x p) sel = Ok (Point.y p)).
  { intros p Hp. apply Hver. now apply (Permutation_in _ (sort_by_x_perm pts)). }
  (* [k] of the points that were not changed *)
  set (others := firstn k (l1 ++ l2)).
  assert (Hothers_in : forall q : Point.t, In q others -> In q (l1 ++ l2)).
  { intros q Hq. unfold others in Hq.
    rewrite <- (firstn_skipn k (l1 ++ l2)). apply in_or_app. now left. }
  assert (Hothers_len : List.length others = k).
  { unfold others. rewrite length_firstn.
    unfold pts in Hk. rewrite length_app in *. cbn [List.length] in Hk. lia. }
  assert (Hothers_nd : NoDup (map Point.x others)).
  { assert (H : NoDup (map Point.x (l1 ++ l2))).
    { unfold pts in Hnd. rewrite map_app in *. cbn [map] in Hnd.
      now apply NoDup_remove_1 in Hnd. }
    rewrite <- (firstn_skipn k (l1 ++ l2)) in H.
    now apply NoDup_map_prefix in H. }
  assert (Hin0 : forall q : Point.t, In q (l1 ++ l2) -> In q pts0).
  { intros q Hq. unfold pts0. apply in_app_or in Hq. apply in_or_app.
    destruct Hq; [now left|right; now right]. }
  assert (Hin1 : forall q : Point.t, In q (l1 ++ l2) -> In q pts).
  { intros q Hq. unfold pts. apply in_app_or in Hq. apply in_or_app.
    destruct Hq; [now left|right; now right]. }
  assert (E0 : evaluateAt xm others = evaluateAt xm sel0).
  { apply evaluateAt_agree; try assumption; [unfold sel0; lia|].
    intros q Hq. apply Hrep0, Hin0, Hothers_in, Hq. }
  assert (E1 : evaluateAt xm others = evaluateAt xm sel).
  { apply evaluateAt_agree; try assumption; [unfold sel; lia|].
    intros q Hq. apply Hrep, Hin1, Hothers_in, Hq. }
  assert (V0 : evaluateAt xm sel0 = Ok ym).
  { apply (Hrep0 (Point.mk xm ym)). unfold pts0. apply in_or_app. right. now left. }
  assert (V1 : evaluateAt xm sel = Ok ym').
  { apply (Hrep (Point.mk xm ym')). unfold pts. apply in_or_app. right. now left. }
  congruence.
Qed.

(** C2, as the code has it.  [solve] returns a result only when
    [evaluateAt] over the selected subset reproduces every decoded point.
    A point that it does not reproduce makes [solve] fail: with the
    verification error when the subset is formed, the constant term is an
    integer and every evaluation returns a value, and in general with that
    error, a not-an-integer error or the error of the selection.  Take
    data on which [solve] succeeds, with pairwise distinct abscissas and
    more than [k] points: changing one ordinate, [k] left as it is, makes
    [solve] fail with the verification error or a not-an-integer error. *)
Theorem solve_verifies_every_point :
  forall (data : Input.t),
    (forall r : Solution.t,
        solve StringToNumber data = Ok r ->
        exists pts : list Point.t,
          decode_props StringToNumber (Input.props data) [] = Ok pts
          /\ Permutation pts (Solution.allPoints r)
          /\ Forall (fun p => evaluateAt (Point.x p) (Solution.selectedPoints r)
                              = Ok (Point.y p)) (Solution.allPoints r))
    /\ (forall (ks : Keys.t) (n k : Z) (pts : list Point.t) (p : Point.t),
           Input.keys data = Some ks ->
           isInteger (Keys.n ks) = Some n ->
           isInteger (Keys.k ks) = Some k ->
           decode_props StringToNumber (Input.props data) [] = Ok pts ->
           In p pts ->
           evaluateAt (Point.x p) (slice0 (sort_by_x pts) k) <> Ok (Point.y p) ->
           exists e : error,
             solve StringToNumber data = Err e
             /\ (e = VerificationFailed \/ e = NonIntegerEvaluation
                 \/ e = ConstantTermNotInteger \/ e = NoPoints
                 \/ e = DuplicateSelected \/ e = NeedAtLeastK))
    /\ (forall (ks : Keys.t) (n k c : Z) (pts : list Point.t) (p : Point.t),
           Input.keys data = Some ks ->
           isInteger (Keys.n ks) = Some n ->
           isInteger (Keys.k ks) = Some k ->
           decode_props StringToNumber (Input.props data) [] = Ok pts ->
           k <= Z.of_nat (List.length pts) ->
           NoDup (map Point.x (slice0 (sort_by_x pts) k)) ->
           findConstantTerm (slice0 (sort_by_x pts) k) = Ok c ->
           (forall q : Point.t, In q pts ->
              exists v : Z, evaluateAt (Point.x q) (slice0 (sort_by_x pts) k) = Ok v) ->
           In p pts ->
           evaluateAt (Point.x p) (slice0 (sort_by_x pts) k) <> Ok (Point.y p) ->
           solve StringToNumber data = Err VerificationFailed)
    /\ (forall (data0 : Input.t) (r0 : Solution.t) (ks : Keys.t) (n : Z)
               (k : nat) (l1 l2 : list Point.t) (xm ym ym' : Z),
           solve StringToNumber data0 = Ok r0 ->
           Input.keys data0 = Some ks ->
           decode_props StringToNumber (Input.props data0) []
           = Ok (l1 ++ Point.mk xm ym :: l2) ->
           Input.keys data = Some ks ->
           isInteger (Keys.n ks) = Some n ->
           isInteger (Keys.k ks) = Some (Z.of_nat k) ->
           decode_props StringToNumber (Input.props data) []
           = Ok (l1 ++ Point.mk xm ym' :: l2) ->
           ym' <> ym ->
           (k < List.length (l1 ++ Point.mk xm ym' :: l2))%nat ->
           NoDup (map Point.x (l1 ++ Point.mk xm ym' :: l2)) ->
           exists e : error,
             solve StringToNumber data = Err e
             /\ (e = VerificationFailed \/ e = NonIntegerEvaluation
                 \/ e = ConstantTermNotInteger)).
Proof.
  intros data. split; [|split; [|split]].
  - intros r Hsolve.
    destruct (solve_Ok_inv StringToNumber data r Hsolve)
      as (ks & n & k & pts & _ & _ & _ & Hdec & _ & Hall & _ & _ & _ & Hver).
    exists pts. repeat split; [assumption| |now apply verifyAllPoints_true].
    rewrite Hall. apply sort_by_x_perm.
  - intros ks n k pts p Hks Hn Hk Hdec Hin Hmis.
    rewrite (solve_decoded StringToNumber data ks n k pts Hks Hn Hk Hdec).
    destruct (Z.ltb_spec (Z.of_nat (List.length pts)) k); [eauto 10|].
    cbn zeta. set (sel := slice0 (sort_by_x pts) k) in *.
    destruct (Nat.eqb_spec (set_size (map Point.x sel)) (List.length sel))
      as [Hset|Hset]; cbn [negb]; [|eauto 10].
    rewrite <- (length_map Point.x) in Hset. apply set_size_NoDup in Hset.
    destruct (findConstantTerm_cases sel Hset) as [[v Hv]|[He|He]];
      rewrite ?Hv, ?He; cbn [bind]; [|eauto 10..].
    destruct (verifyAllPoints_cases sel Hset (sort_by_x pts)) as [[[|] Hb]|He];
      rewrite ?Hb, ?He; cbn [bind negb]; [|eauto 10..].
    exfalso. apply Hmis.
    rewrite verifyAllPoints_true, Forall_forall in Hb. apply Hb.
    now apply (Permutation_in _ (sort_by_x_perm pts)).
  - intros ks n k c pts p Hks Hn Hk Hdec Hlen Hnd Hc Hall Hin Hmis.
    rewrite (solve_decoded StringToNumber data ks n k pts Hks Hn Hk Hdec).
    destruct (Z.ltb_spec (Z.of_nat (List.length pts)) k); [lia|].
    cbn zeta. set (sel := slice0 (sort_by_x pts) k) in *.
    rewrite (proj2 (set_size_NoDup _) Hnd), length_map, Nat.eqb_refl. cbn [negb].
    rewrite Hc. cbn [bind].
    destruct (verifyAllPoints_total sel (sort_by_x pts)) as [[|] Hb].
    + intros q Hq. apply Hall.
      now apply (Permutation_in _ (Permutation_sym (sort_by_x_perm pts))).
    + exfalso. apply Hmis.
      rewrite verifyAllPoints_true, Forall_forall in Hb. apply Hb.
      now apply (Permutation_in _ (sort_by_x_perm pts)).
    + rewrite Hb. reflexivity.
  - intros data0 r0 ks n k l1 l2 xm ym ym' Hsolve0 Hks0 Hdec0 Hks Hn Hk Hdec
           Hym Hlen Hnd.
    set (pts0 := l1 ++ Point.mk xm ym :: l2) in *.
    set (pts := l1 ++ Point.mk xm ym' :: l2) in *.
    (* what the successful run on the data as they were gives *)
    destruct (solve_Ok_inv StringToNumber data0 r0 Hsolve0)
      as (ks' & n' & k' & pts' & Hks' & _ & Hk' & Hdec' & _ & Hall0 & Hsel0 & _
          & Hc0 & Hver0).
    rewrite Hks0 in Hks'. injection Hks' as <-.
    rewrite Hk in Hk'. injection Hk' as <-.
    rewrite Hdec0 in Hdec'. injection Hdec' as <-.
    assert (Hk1 : (1 <= k)%nat).
    { destruct k as [|k']; [|lia]. exfalso.
      rewrite Hsel0, slice0_count in Hc0 by (rewrite sort_by_x_length; lia).
      cbn in Hc0. discriminate. }
    assert (Hlen0 : List.length pts0 = List.length pts).
    { unfold pts0, pts. rewrite !length_app. reflexivity. }
    assert (Hrep0 : Forall (fun p => evaluateAt (Point.x p)
                                       (firstn k (sort_by_x pts0))
                                     = Ok (Point.y p)) pts0).
    { rewrite verifyAllPoints_true, Hsel0, Hall0 in Hver0.
      rewrite slice0_count in Hver0 by (rewrite sort_by_x_length; lia).
      rewrite Nat2Z.id in Hver0.
      eapply Permutation_Forall; [apply Permutation_sym, sort_by_x_perm|exact Hver0]. }
    rewrite (solve_decoded StringToNumber data ks n _ pts Hks Hn Hk Hdec).
    destruct (Z.ltb_spec (Z.of_nat (List.length pts)) (Z.of_nat k)); [lia|].
    cbn zeta.
    rewrite slice0_count by (rewrite sort_by_x_length; lia). rewrite Nat2Z.id.
    set (sel := firstn k (sort_by_x pts)).
    assert (Hsel_nd : NoDup (map Point.x sel)).
    { apply sort_by_x_NoDup in Hnd.
      rewrite <- (firstn_skipn k (sort_by_x pts)) in Hnd.
      now apply NoDup_map_prefix in Hnd. }
    assert (Hsel_ne : sel <> []).
    { intros E. assert (Hl : List.length sel = k)
        by (unfold sel; rewrite length_firstn, sort_by_x_length; lia).
      rewrite E in Hl. cbn in Hl. lia. }
    rewrite (proj2 (set_size_NoDup _) Hsel_nd), length_map, Nat.eqb_refl. cbn [negb].
    destruct (findConstantTerm_cases_nonempty sel Hsel_ne Hsel_nd) as [[v Hv]|He];
      rewrite ?Hv, ?He; cbn [bind]; [|eauto 10].
    destruct (verifyAllPoints_cases sel Hsel_nd (sort_by_x pts)) as [[[|] Hb]|He];
      rewrite ?Hb, ?He; cbn [bind negb]; [|eauto 10..].
    exfalso.
    apply (tampered_not_verified k l1 l2 xm ym ym' ltac:(fold pts; lia) Hnd Hrep0 Hym Hb).
Qed.

(** C9, as the code has it.  [solve] fails before any decoding when
    [keys] is missing or when [n] or [k] is not an integer; it checks no
    sign: the result does not depend on the integer [n] at all, and with
    integer counts of any sign a decoding error is the error of
    [solve]. *)
Theorem solve_parse_integers_only :
  forall (props : list (string * Entry.t)),
    solve StringToNumber (Input.mk None props) = Err MissingKeys
    /\ (forall ks : Keys.t,
           isInteger (Keys.n ks) = None \/ isInteger (Keys.k ks) = None ->
           solve StringToNumber (Input.mk (Some ks) props) = Err KeysNotIntegers)
    /\ (forall (n n' : Z) (k : jsval),
           solve StringToNumber
             (Input.mk (Some (Keys.mk (JNumber (NInt n)) k)) props)
           = solve StringToNumber
               (Input.mk (Some (Keys.mk (JNumber (NInt n')) k)) props))
    /\ (forall (n k : Z) (e : error),
           decode_props StringToNumber props [] = Err e ->
           solve StringToNumber
             (Input.mk (Some (Keys.mk (JNumber (NInt n)) (JNumber (NInt k)))) props)
           = Err e).
Proof.
  intros props. repeat split.
  - intros ks [H|H]; unfold solve; cbn [Input.keys]; rewrite H;
      [reflexivity|destruct (isInteger (Keys.n ks)); reflexivity].
  - intros n k e Hdec. unfold solve.
    cbn [Input.keys Input.props Keys.n Keys.k isInteger]. now rewrite Hdec.
Qed.

End Claims.

(** ** The end-to-end example and the edge inputs *)

Lemma example_solution :
  solve decimalStringToNumber example_input
  = Ok (Solution.mk 3 example_points (example_points ++ [Point.mk 6 39])).
Proof. vm_compute. reflexivity. Qed.



Lemma solve_recovers_constant_term_witness :
  solve decimalStringToNumber example_input
  = Ok (Solution.mk (peval [3; 0; 1] 0)
          (firstn 3 (sort_by_x (example_points ++ [Point.mk 6 39])))
          (sort_by_x (example_points ++ [Point.mk 6 39])))
  /\ verifyAllPoints (firstn 3 (sort_by_x (example_points ++ [Point.mk 6 39])))
       (sort_by_x (example_points ++ [Point.mk 6 39])) = Ok true.
Proof.
  apply (proj1 (solve_recovers_constant_term decimalStringToNumber example_input
                  (Keys.mk (JNumber (NInt 4)) (JNumber (NInt 3))) 4 2
                  (example_points ++ [Point.mk 6 39]) [3; 0; 1]
                  eq_refl eq_refl eq_refl eq_refl eq_refl
                  ltac:(cbn; lia) ltac:(repeat constructor))).
  cbn. repeat (constructor; [cbn; intuition discriminate|]). constructor.
Defined.

(** C1, as the claim has it, fails: the example with one more sample of
    the same polynomial appended, under the key ["02"], decodes to points
    that all lie on [x^2 + 3], the three sampled abscissas 1, 2, 3 are
    distinct and [k] is 3, yet the appended point has the abscissa 2 again,
    it is among the three smallest, and [solve] fails with its duplicate
    error where the example without it returns 3. *)
Lemma appended_repeated_sample_rejected :
  decode_props decimalStringToNumber (Input.props example_repeated_input) []
  = Ok (example_points ++ [Point.mk 6 39; Point.mk 2 7])
  /\ on_poly [3; 0; 1] (example_points ++ [Point.mk 6 39; Point.mk 2 7])
  /\ NoDup (map Point.x example_points)
  /\ solve decimalStringToNumber example_input
     = Ok (Solution.mk 3 example_points (example_points ++ [Point.mk 6 39]))
  /\ solve decimalStringToNumber example_repeated_input = Err DuplicateSelected.
Proof.
  split; [vm_compute; reflexivity|].
  split; [repeat constructor|].
  split; [repeat (constructor; [cbn; intuition discriminate|]); constructor|].
  split; vm_compute; reflexivity.
Qed.

Lemma selected_points_reproduced_witness :
  evaluateAt 2 example_points = Ok 7.
Proof.
  apply (selected_points_reproduced decimalStringToNumber example_input
           (Solution.mk 3 example_points (example_points ++ [Point.mk 6 39]))
           (Point.mk 2 7)).
  - vm_compute. reflexivity.
  - cbn. auto.
Defined.

Lemma solve_verifies_every_point_witness :
  exists e : error,
    solve decimalStringToNumber (triangular_input "4") = Err e
    /\ (e = VerificationFailed \/ e = NonIntegerEvaluation
        \/ e = ConstantTermNotInteger).
Proof.
  apply (proj2 (proj2 (proj2 (solve_verifies_every_point decimalStringToNumber
                                (triangular_input "4"))))
           (triangular_input "3")
           (Solution.mk 0
              [Point.mk 0 0; Point.mk 1 0; Point.mk 2 1]
              [Point.mk 0 0; Point.mk 1 0; Point.mk 2 1; Point.mk 3 3])
           (Keys.mk (JNumber (NInt 4)) (JNumber (NInt 3))) 4 3%nat
           [Point.mk 0 0; Point.mk 1 0; Point.mk 2 1] [] 3 3 4).
  - vm_compute. reflexivity.
  - reflexivity.
  - vm_compute. reflexivity.
  - reflexivity.
  - reflexivity.
  - reflexivity.
  - vm_compute. reflexivity.
  - discriminate.
  - cbn. lia.
  - cbn. repeat (constructor; [cbn; intuition discriminate|]). constructor.
Defined.

(** C2, as the claim has it, fails three times.  With the ordinate at 1
    changed on three points of the line [y = x] and [k = 2], [solve] fails
    in [findConstantTerm] with the not-an-integer error, not with the
    verification error.  With [k = n = 3] a changed ordinate leaves nothing
    to verify against: [solve] returns 4 where the points it was changed
    from give 3.  And with the abscissa 2 twice among three points of the
    line and [k = 2], the points left unchanged do not determine the line:
    with the ordinate at 1 changed to 7 [solve] returns 12 where the
    points it was changed from give 0. *)
Lemma tampering_counterexample :
  (exists r : Solution.t, solve decimalStringToNumber (line_input 2) = Ok r)
  /\ solve decimalStringToNumber (line_input_tampered 2) = Err ConstantTermNotInteger
  /\ solve decimalStringToNumber (line_input_tampered 2) <> Err VerificationFailed
  /\ solve decimalStringToNumber (three_point_input "12")
     = Ok (Solution.mk 3 example_points example_points)
  /\ solve decimalStringToNumber (three_point_input "13")
     = Ok (Solution.mk 4
             [Point.mk 1 4; Point.mk 2 7; Point.mk 3 13]
             [Point.mk 1 4; Point.mk 2 7; Point.mk 3 13])
  /\ solve decimalStringToNumber (repeated_line_input "1")
     = Ok (Solution.mk 0
             [Point.mk 1 1; Point.mk 2 2]
             [Point.mk 1 1; Point.mk 2 2; Point.mk 2 2])
  /\ solve decimalStringToNumber (repeated_line_input "7")
     = Ok (Solution.mk 12
             [Point.mk 1 7; Point.mk 2 2]
             [Point.mk 1 7; Point.mk 2 2; Point.mk 2 2]).
Proof.
  split; [eexists; vm_compute; reflexivity|].
  split; [vm_compute; reflexivity|].
  split; [vm_compute; discriminate|].
  repeat split; vm_compute; reflexivity.
Qed.

Lemma solve_parse_integers_only_witness :
  solve decimalStringToNumber
    (Input.mk (Some (Keys.mk (JString "4") (JNumber (NInt 3))))
       (Input.props example_input))
  = Err KeysNotIntegers.
Proof.
  apply (proj1 (proj2 (solve_parse_integers_only decimalStringToNumber
                         (Input.props example_input)))
           (Keys.mk (JString "4") (JNumber (NInt 3)))).
  left. reflexivity.
Defined.

(** C9, as the claim has it, fails: counts that are not positive pass the
    parsing stage, and [solve] goes on to return a constant term with a
    declared count of 0 or of -4, and with a subset size of -1. *)
Lemma nonpositive_counts_accepted :
  solve decimalStringToNumber (example_with_keys 0 3)
  = Ok (Solution.mk 3 example_points (example_points ++ [Point.mk 6 39]))
  /\ solve decimalStringToNumber (example_with_keys (-4) 3)
     = Ok (Solution.mk 3 example_points (example_points ++ [Point.mk 6 39]))
  /\ solve decimalStringToNumber (example_with_keys 4 (-1))
     = Ok (Solution.mk 3 example_points (example_points ++ [Point.mk 6 39])).
Proof.
  repeat split.
Qed.

(** * Further properties of the code *)

(** ** The digit codec and the decoder *)

Lemma getDigitValue_alphabet (c : ascii) (d : Z) :
  getDigitValue c = Ok d ->
  0 <= d <= 61 /\ String.get (Z.to_nat d) digit_alphabet = Some c.
Proof.
  destruct c as [b0 b1 b2 b3 b4 b5 b6 b7].
  destruct b0, b1, b2, b3, b4, b5, b6, b7; vm_compute; intros H;
    try discriminate; injection H as <-;
    (split; [split; discriminate|reflexivity]).
Qed.

Lemma alphabet_getDigitValue (d : Z) :
  0 <= d <= 61 ->
  exists c : ascii,
    String.get (Z.to_nat d) digit_alphabet = Some c /\ getDigitValue c = Ok d.
Proof.
  intros Hd.
  assert (Hall : forallb
                   (fun m : nat =>
                      match String.get m digit_alphabet with
                      | Some c =>
                          match getDigitValue c with
                          | Ok v => v =? Z.of_nat m
                          | Err _ => false
                          end
                      | None => false
                      end) (seq 0 62) = true) by (vm_compute; reflexivity).
  rewrite forallb_forall in Hall.
  specialize (Hall (Z.to_nat d)).
  assert (Hin : In (Z.to_nat d) (seq 0 62)) by (apply in_seq; lia).
  specialize (Hall Hin).
  destruct (String.get (Z.to_nat d) digit_alphabet) as [c|]; [|discriminate].
  exists c. split; [reflexivity|].
  destruct (getDigitValue c) as [v|e]; [|discriminate].
  apply Z.eqb_eq in Hall. f_equal. lia.
Qed.

(** X1. The digit codec is a one-to-one correspondence between the 62
    characters of the alphabet and the values 0..61: the value of a
    character is its position in the alphabet, two characters with one
    value are one character (so a letter and its capital never share a
    value), and every value from 0 to 61 is the value of a character. *)
Theorem getDigitValue_one_to_one :
  (forall (c : ascii) (d : Z),
      getDigitValue c = Ok d ->
      0 <= d <= 61 /\ String.get (Z.to_nat d) digit_alphabet = Some c)
  /\ (forall (c1 c2 : ascii) (d : Z),
         getDigitValue c1 = Ok d -> getDigitValue c2 = Ok d -> c1 = c2)
  /\ (forall d : Z,
         0 <= d <= 61 -> exists c : ascii, getDigitValue c = Ok d).
Proof.
  split; [|split].
  - apply getDigitValue_alphabet.
  - intros c1 c2 d H1 H2.
    apply getDigitValue_alphabet in H1 as [_ H1].
    apply getDigitValue_alphabet in H2 as [_ H2].
    congruence.
  - intros d Hd. destruct (alphabet_getDigitValue d Hd) as (c & _ & Hc).
    now exists c.
Qed.

Lemma getDigitValue_one_to_one_witness :
  0 <= 36 <= 61 /\ String.get (Z.to_nat 36) digit_alphabet = Some "A"%char.
Proof.
  apply (proj1 getDigitValue_one_to_one "A"%char 36). reflexivity.
Defined.

Lemma spec_digit_value_getDigitValue (c : ascii) (d : Z) :
  spec_digit_value c = Some d <-> getDigitValue c = Ok d.
Proof.
  rewrite getDigitValue_spec.
  destruct (spec_digit_value c) as [d'|]; split; intros H;
    try discriminate; injection H as <-; reflexivity.
Qed.

Lemma spec_digits_length (s : string) :
  forall ds : list Z, spec_digits s = Some ds -> List.length ds = String.length s.
Proof.
  induction s as [|c s IH]; intros ds Hs.
  - injection Hs as <-. reflexivity.
  - cbn [spec_digits] in Hs.
    destruct (spec_digit_value c); [|discriminate].
    destruct (spec_digits s) as [l|]; [|discriminate].
    injection Hs as <-. cbn. f_equal. now apply IH.
Qed.

Lemma spec_digits_nonneg (s : string) :
  forall ds : list Z, spec_digits s = Some ds -> Forall (fun d => 0 <= d) ds.
Proof.
  induction s as [|c s IH]; intros ds Hs.
  - injection Hs as <-. constructor.
  - cbn [spec_digits] in Hs.
    destruct (spec_digit_value c) as [d|] eqn:Hd; [|discriminate].
    destruct (spec_digits s) as [l|]; [|discriminate].
    injection Hs as <-. constructor; [|now apply IH].
    apply spec_digit_value_range in Hd. lia.
Qed.

Lemma spec_digits_injective (s : string) :
  forall (t : string) (ds : list Z),
    spec_digits s = Some ds -> spec_digits t = Some ds -> s = t.
Proof.
  induction s as [|c s IH]; intros t ds Hs Ht.
  - injection Hs as <-. destruct t as [|c' t]; [reflexivity|].
    cbn [spec_digits] in Ht.
    destruct (spec_digit_value c'); [|discriminate].
    destruct (spec_digits t); discriminate.
  - cbn [spec_digits] in Hs.
    destruct (spec_digit_value c) as [d|] eqn:Hd; [|discriminate].
    destruct (spec_digits s) as [l|] eqn:Hl; [|discriminate].
    injection Hs as <-.
    destruct t as [|c' t]; [discriminate|].
    cbn [spec_digits] in Ht.
    destruct (spec_digit_value c') as [d'|] eqn:Hd'; [|discriminate].
    destruct (spec_digits t) as [l'|] eqn:Hl'; [|discriminate].
    injection Ht as -> ->.
    apply spec_digit_value_getDigitValue in Hd, Hd'.
    f_equal.
    + apply getDigitValue_alphabet in Hd as [_ Hd].
      apply getDigitValue_alphabet in Hd' as [_ Hd']. congruence.
    + now apply (IH t l).
Qed.

(** What the loop of the decoder went through when it returns. *)
Lemma convert_loop_Ok_inv (b : Z) (s : string) :
  forall (res v : Z),
    convert_loop b s res = Ok v ->
    exists ds : list Z,
      spec_digits s = Some ds
      /\ Forall (fun d => d < b) ds
      /\ v = res * b ^ Z.of_nat (String.length s) + spec_positional_value b ds.
Proof.
  induction s as [|c s IH]; intros res v H.
  - cbn in H. injection H as <-. exists []. repeat split; [constructor|cbn; ring].
  - cbn [convert_loop] in H. rewrite getDigitValue_spec in H.
    destruct (spec_digit_value c) as [d|] eqn:Hd; [|discriminate].
    cbn [bind] in H.
    destruct (Z.geb_spec d b) as [Hge|Hlt]; [discriminate|].
    destruct (IH _ _ H) as (ds & Hds & Hall & Hv).
    exists (d :: ds). cbn [spec_digits]. rewrite Hd, Hds.
    repeat split; [now constructor|].
    rewrite Hv. cbn [spec_positional_value String.length].
    rewrite (spec_digits_length s ds Hds).
    rewrite Nat2Z.inj_succ, Z.pow_succ_r by lia. ring.
Qed.

Lemma spec_positional_value_bound (b : Z) (ds : list Z) :
  0 < b ->
  Forall (fun d => 0 <= d) ds ->
  Forall (fun d => d < b) ds ->
  0 <= spec_positional_value b ds < b ^ Z.of_nat (List.length ds).
Proof.
  intros Hb. induction ds as [|d ds IH]; intros Hnn Hlt.
  - cbn. lia.
  - inversion Hnn as [|? ? Hd0 Hnn']; subst.
    inversion Hlt as [|? ? Hd1 Hlt']; subst.
    specialize (IH Hnn' Hlt').
    cbn [spec_positional_value List.length].
    rewrite Nat2Z.inj_succ, Z.pow_succ_r by lia.
    set (B := b ^ Z.of_nat (List.length ds)) in *.
    assert (0 < B) by (apply Z.pow_pos_nonneg; lia).
    nia.
Qed.

Lemma spec_positional_value_injective (b : Z) (ds1 : list Z) :
  forall ds2 : list Z,
    0 < b ->
    List.length ds1 = List.length ds2 ->
    Forall (fun d => 0 <= d) ds1 -> Forall (fun d => d < b) ds1 ->
    Forall (fun d => 0 <= d) ds2 -> Forall (fun d => d < b) ds2 ->
    spec_positional_value b ds1 = spec_positional_value b ds2 ->
    ds1 = ds2.
Proof.
  induction ds1 as [|d1 ds1 IH]; intros ds2 Hb Hlen Hn1 Hl1 Hn2 Hl2 Heq.
  - destruct ds2; [reflexivity|discriminate].
  - destruct ds2 as [|d2 ds2]; [discriminate|].
    cbn [List.length] in Hlen. injection Hlen as Hlen.
    pose proof (Forall_inv Hn1) as Ha1. pose proof (Forall_inv_tail Hn1) as Ht1.
    pose proof (Forall_inv Hl1) as Hb1. pose proof (Forall_inv_tail Hl1) as Hu1.
    pose proof (Forall_inv Hn2) as Ha2. pose proof (Forall_inv_tail Hn2) as Ht2.
    pose proof (Forall_inv Hl2) as Hb2. pose proof (Forall_inv_tail Hl2) as Hu2.
    cbn beta in Ha1, Hb1, Ha2, Hb2.
    cbn [spec_positional_value] in Heq. rewrite <- Hlen in Heq.
    pose proof (spec_positional_value_bound b ds1 Hb Ht1 Hu1) as B1.
    pose proof (spec_positional_value_bound b ds2 Hb Ht2 Hu2) as B2.
    rewrite <- Hlen in B2.
    set (B := b ^ Z.of_nat (List.length ds1)) in *.
    assert (HB : 0 < B) by (apply Z.pow_pos_nonneg; lia).
    assert (Hd : d1 = d2) by nia.
    subst d2. f_equal. apply IH; try assumption. lia.
Qed.

Lemma convertToDecimalBigInt_Ok_loop (StringToNumber : string -> jsnum)
  (value base : jsval) (v : Z) :
  convertToDecimalBigInt StringToNumber value base = Ok v ->
  exists (s : string) (b : Z),
    value = JString s /\ s <> EmptyString
    /\ Number StringToNumber base = NInt b /\ 2 <= b <= 62
    /\ convert_loop b s 0 = Ok v.
Proof.
  unfold convertToDecimalBigInt. intros H.
  destruct (Number StringToNumber base) as [b|]; [|discriminate].
  destruct (Z.ltb_spec b 2); [discriminate|].
  destruct (Z.gtb_spec b 62); [discriminate|]. cbn [orb] in H.
  destruct value as [|m|s]; try discriminate.
  destruct s as [|c s]; [discriminate|]. cbn [String.length Nat.eqb] in H.
  exists (String c s), b. repeat split; try assumption; try lia. discriminate.
Qed.

(** The decoder returns a value only for a non-empty string of digits
    of the alphabet that are all below an integer base in 2..62; the value
    is then the positional value, it is not negative and it is below the
    base raised to the length of the string. *)
Lemma convertToDecimalBigInt_Ok_digits :
  forall (StringToNumber : string -> jsnum) (value base : jsval) (v : Z),
    convertToDecimalBigInt StringToNumber value base = Ok v ->
    exists (s : string) (b : Z) (ds : list Z),
      value = JString s /\ s <> EmptyString
      /\ Number StringToNumber base = NInt b /\ 2 <= b <= 62
      /\ spec_digits s = Some ds
      /\ Forall (fun d => 0 <= d < b) ds
      /\ v = spec_positional_value b ds
      /\ 0 <= v < b ^ Z.of_nat (String.length s).
Proof.
  intros T value base v H.
  destruct (convertToDecimalBigInt_Ok_loop T value base v H)
    as (s & b & Hval & Hne & Hbase & Hb & Hloop).
  destruct (convert_loop_Ok_inv b s 0 v Hloop) as (ds & Hds & Hlt & Hv).
  pose proof (spec_digits_nonneg s ds Hds) as Hnn.
  pose proof (spec_positional_value_bound b ds ltac:(lia) Hnn Hlt) as Hbound.
  rewrite (spec_digits_length s ds Hds) in Hbound.
  assert (Hv' : v = spec_positional_value b ds) by lia.
  exists s, b, ds. repeat split; try assumption; try lia.
  rewrite Forall_forall in *. intros d Hd. split; [now apply Hnn|now apply Hlt].
Qed.

(** X2. The decoder returns a value only for a non-empty string of digits
    of the alphabet that are all below an integer base in 2..62; the value
    is then the positional value, it is not negative and it is below the
    base raised to the length of the string. *)
Theorem convertToDecimalBigInt_Ok_inv :
  forall (StringToNumber : string -> jsnum) (value base : jsval) (v : Z),
    convertToDecimalBigInt StringToNumber value base = Ok v ->
    exists (s : string) (b : Z) (ds : list Z),
      value = JString s /\ s <> EmptyString
      /\ Number StringToNumber base = NInt b /\ 2 <= b <= 62
      /\ spec_digits s = Some ds
      /\ Forall (fun d => 0 <= d < b) ds
      /\ v = spec_positional_value b ds
      /\ 0 <= v < b ^ Z.of_nat (String.length s).
Proof.
  intros T value base v H.
  destruct (convertToDecimalBigInt_Ok_digits T value base v H)
    as (s & b & ds & H1 & H2 & H3 & H4 & H5 & H6 & H7 & H8).
  exists s, b, ds. repeat split; try assumption; lia.
Qed.

Lemma convertToDecimalBigInt_Ok_inv_witness :
  exists (s : string) (b : Z) (ds : list Z),
    JString "213" = JString s /\ s <> EmptyString
    /\ Number decimalStringToNumber (JString "4") = NInt b /\ 2 <= b <= 62
    /\ spec_digits s = Some ds
    /\ Forall (fun d => 0 <= d < b) ds
    /\ 39 = spec_positional_value b ds
    /\ 0 <= 39 < b ^ Z.of_nat (String.length s).
Proof.
  apply (convertToDecimalBigInt_Ok_inv decimalStringToNumber
           (JString "213") (JString "4") 39).
  reflexivity.
Defined.

Lemma convert_loop_append (b : Z) (s t : string) :
  forall res : Z,
    convert_loop b (s ++ t)%string res
    = (v <- convert_loop b s res ;; convert_loop b t v).
Proof.
  induction s as [|c s IH]; intros res; cbn [String.append convert_loop].
  - reflexivity.
  - destruct (getDigitValue c) as [d|e]; cbn [bind]; [|reflexivity].
    destruct (d >=? b); [reflexivity|apply IH].
Qed.

Lemma convert_loop_shift (b : Z) (t : string) (res v : Z) :
  convert_loop b t 0 = Ok v ->
  convert_loop b t res = Ok (res * b ^ Z.of_nat (String.length t) + v).
Proof.
  intros H. destruct (convert_loop_Ok_inv b t 0 v H) as (ds & Hds & Hlt & Hv).
  rewrite (convert_loop_positional b t ds res Hds Hlt). f_equal. lia.
Qed.

(** X3. The decoder is positional over concatenation: when [s] decodes to
    [v1] and [t] to [v2] in one base [b], [s] followed by [t] decodes to
    [v1 * b ^ length t + v2]; in particular a leading ["0"] does not change
    the value. *)
Theorem convertToDecimalBigInt_append :
  forall (StringToNumber : string -> jsnum) (base : jsval) (b : Z),
    Number StringToNumber base = NInt b ->
    (forall (s t : string) (v1 v2 : Z),
        convertToDecimalBigInt StringToNumber (JString s) base = Ok v1 ->
        convertToDecimalBigInt StringToNumber (JString t) base = Ok v2 ->
        convertToDecimalBigInt StringToNumber (JString (s ++ t)) base
        = Ok (v1 * b ^ Z.of_nat (String.length t) + v2))
    /\ (forall (t : string) (v : Z),
           convertToDecimalBigInt StringToNumber (JString t) base = Ok v ->
           convertToDecimalBigInt StringToNumber (JString (String "0" t)) base
           = Ok v).
Proof.
  intros T base b Hbase.
  assert (Hcat : forall (s t : string) (v1 v2 : Z),
             convertToDecimalBigInt T (JString s) base = Ok v1 ->
             convertToDecimalBigInt T (JString t) base = Ok v2 ->
             convertToDecimalBigInt T (JString (s ++ t)) base
             = Ok (v1 * b ^ Z.of_nat (String.length t) + v2)).
  { intros s t v1 v2 H1 H2.
    destruct (convertToDecimalBigInt_Ok_loop T _ _ _ H1)
      as (s' & b1 & Es & Hne & Hb1 & Hr1 & L1).
    destruct (convertToDecimalBigInt_Ok_loop T _ _ _ H2)
      as (t' & b2 & Et & _ & Hb2 & _ & L2).
    injection Es as <-. injection Et as <-.
    rewrite Hbase in Hb1, Hb2. injection Hb1 as <-. injection Hb2 as <-.
    unfold convertToDecimalBigInt. rewrite Hbase.
    destruct (Z.ltb_spec b 2); [lia|]. destruct (Z.gtb_spec b 62); [lia|].
    cbn [orb]. destruct s as [|c s]; [congruence|].
    cbn [String.append String.length Nat.eqb].
    change (String c (s ++ t)%string) with (String c s ++ t)%string.
    rewrite convert_loop_append, L1. cbn [bind].
    now apply convert_loop_shift. }
  split; [exact Hcat|].
  intros t v Ht.
  destruct (convertToDecimalBigInt_Ok_loop T _ _ _ Ht)
    as (t' & b2 & Et & _ & Hb2 & Hr & _).
  rewrite Hbase in Hb2. injection Hb2 as <-.
  assert (H0 : convertToDecimalBigInt T (JString "0") base = Ok 0).
  { unfold convertToDecimalBigInt. rewrite Hbase.
    destruct (Z.ltb_spec b 2); [lia|]. destruct (Z.gtb_spec b 62); [lia|].
    cbn. destruct (Z.geb_spec 0 b); [lia|reflexivity]. }
  pose proof (Hcat "0"%string t 0 v H0 Ht) as H.
  cbn [String.append] in H. rewrite H. reflexivity.
Qed.

Lemma convertToDecimalBigInt_append_witness :
  convertToDecimalBigInt decimalStringToNumber (JString ("2" ++ "13")) (JString "4")
  = Ok (2 * 4 ^ Z.of_nat (String.length "13") + 7).
Proof.
  apply (proj1 (convertToDecimalBigInt_append decimalStringToNumber
                  (JString "4") 4 eq_refl) "2"%string "13"%string 2 7);
    reflexivity.
Defined.

(** X4. In one base two strings of one length that decode to one value are
    one string: the decoder loses nothing but leading zeros. *)
Theorem convertToDecimalBigInt_injective :
  forall (StringToNumber : string -> jsnum) (base : jsval) (s t : string) (v : Z),
    convertToDecimalBigInt StringToNumber (JString s) base = Ok v ->
    convertToDecimalBigInt StringToNumber (JString t) base = Ok v ->
    String.length s = String.length t ->
    s = t.
Proof.
  intros T base s t v Hs Ht Hlen.
  destruct (convertToDecimalBigInt_Ok_digits T _ _ _ Hs)
    as (s' & b & ds & Es & _ & Hb & Hr & Hds & Hall & Hv & _).
  destruct (convertToDecimalBigInt_Ok_digits T _ _ _ Ht)
    as (t' & b' & dt & Et & _ & Hb' & _ & Hdt & Hall' & Hv' & _).
  injection Es as <-. injection Et as <-.
  rewrite Hb in Hb'. injection Hb' as <-.
  assert (ds = dt).
  { apply (spec_positional_value_injective b); try lia.
    - now rewrite (spec_digits_length s ds Hds), (spec_digits_length t dt Hdt).
    - eapply Forall_impl; [|exact Hall]. cbn. lia.
    - eapply Forall_impl; [|exact Hall]. cbn. lia.
    - eapply Forall_impl; [|exact Hall']. cbn. lia.
    - eapply Forall_impl; [|exact Hall']. cbn. lia. }
  subst dt. now apply (spec_digits_injective s t ds).
Qed.

Lemma convertToDecimalBigInt_injective_witness :
  "111"%string = "111"%string.
Proof.
  apply (convertToDecimalBigInt_injective decimalStringToNumber
           (JString "2") "111" "111" 7); reflexivity.
Defined.

Lemma convert_loop_first_bad (b : Z) (good : string) (c : ascii) (rest : string) :
  forall (ds : list Z) (res : Z),
    spec_digits good = Some ds ->
    Forall (fun d => d < b) ds ->
    convert_loop b (good ++ String c rest)%string res
    = match getDigitValue c with
      | Err e => Err e
      | Ok d =>
          if d >=? b then Err DigitInvalidForBase
          else convert_loop b (String c rest)
                 (res * b ^ Z.of_nat (String.length good)
                  + spec_positional_value b ds)
      end.
Proof.
  intros ds res Hds Hlt.
  rewrite convert_loop_append, (convert_loop_positional b good ds res Hds Hlt).
  cbn [bind convert_loop].
  destruct (getDigitValue c) as [d|e]; cbn [bind]; [|reflexivity].
  destruct (d >=? b); reflexivity.
Qed.

(** X5. The first character that is not a digit below the base decides
    the failure, whatever follows it: the unsupported-digit error when it
    is outside the alphabet, the invalid-for-base error when its value is
    the base or more. *)
Theorem convertToDecimalBigInt_first_bad_character :
  forall (StringToNumber : string -> jsnum) (base : jsval) (b : Z)
         (good : string) (ds : list Z) (c : ascii) (rest : string),
    Number StringToNumber base = NInt b ->
    2 <= b <= 62 ->
    spec_digits good = Some ds ->
    Forall (fun d => d < b) ds ->
    (getDigitValue c = Err UnsupportedDigit ->
     convertToDecimalBigInt StringToNumber (JString (good ++ String c rest)) base
     = Err UnsupportedDigit)
    /\ (forall d : Z,
           getDigitValue c = Ok d -> b <= d ->
           convertToDecimalBigInt StringToNumber (JString (good ++ String c rest)) base
           = Err DigitInvalidForBase).
Proof.
  intros T base b good ds c rest Hbase Hb Hds Hlt.
  assert (Hstep : convertToDecimalBigInt T (JString (good ++ String c rest)) base
                  = convert_loop b (good ++ String c rest)%string 0).
  { unfold convertToDecimalBigInt. rewrite Hbase.
    destruct (Z.ltb_spec b 2); [lia|]. destruct (Z.gtb_spec b 62); [lia|].
    cbn [orb]. destruct good; reflexivity. }
  rewrite Hstep, (convert_loop_first_bad b good c rest ds 0 Hds Hlt).
  split.
  - intros ->. reflexivity.
  - intros d -> Hd. destruct (Z.geb_spec d b); [reflexivity|lia].
Qed.

Lemma convertToDecimalBigInt_first_bad_character_witness :
  convertToDecimalBigInt decimalStringToNumber (JString ("12" ++ String "9" "???"))
    (JString "8")
  = Err DigitInvalidForBase.
Proof.
  apply (proj2 (convertToDecimalBigInt_first_bad_character decimalStringToNumber
                  (JString "8") 8 "12" [1; 2] "9"%char "???"
                  eq_refl ltac:(lia) eq_refl ltac:(repeat constructor)) 9).
  - reflexivity.
  - lia.
Defined.

Lemma convert_loop_digit_too_big (b : Z) (s : string) :
  forall (ds : list Z) (res : Z),
    spec_digits s = Some ds ->
    Exists (fun d => b <= d) ds ->
    convert_loop b s res = Err DigitInvalidForBase.
Proof.
  induction s as [|c s IH]; intros ds res Hds Hex.
  - injection Hds as <-. inversion Hex.
  - cbn [spec_digits] in Hds.
    destruct (spec_digit_value c) as [d|] eqn:Hd; [|discriminate].
    destruct (spec_digits s) as [l|] eqn:Hl; [|discriminate].
    injection Hds as <-. cbn [convert_loop].
    rewrite getDigitValue_spec, Hd. cbn [bind].
    destruct (Z.geb_spec d b) as [Hge|Hlt]; [reflexivity|].
    inversion Hex as [? ? H0|? ? H0]; subst; [lia|].
    now apply (IH l).
Qed.

Lemma spec_digits_In (s : string) :
  forall (ds : list Z) (c : ascii),
    spec_digits s = Some ds ->
    In c (list_ascii_of_string s) ->
    exists d : Z, spec_digit_value c = Some d /\ In d ds.
Proof.
  induction s as [|c' s IH]; intros ds c Hds Hin.
  - destruct Hin.
  - cbn [spec_digits] in Hds.
    destruct (spec_digit_value c') as [d|] eqn:Hd; [|discriminate].
    destruct (spec_digits s) as [l|] eqn:Hl; [|discriminate].
    injection Hds as <-. cbn [list_ascii_of_string] in Hin.
    destruct Hin as [<-|Hin].
    + exists d. split; [assumption|now left].
    + destruct (IH l c eq_refl Hin) as (d' & Hd' & Hin').
      exists d'. split; [assumption|now right].
Qed.

(** X6. Capital letters are digits only above base 36: in a base from 2
    to 36 a string of letters and digits with a capital letter in it is
    rejected with the invalid-for-base error (so ["FF"] is no number in
    base 16). *)
Theorem capital_letter_rejected_up_to_base_36 :
  forall (StringToNumber : string -> jsnum) (base : jsval) (b : Z)
         (s : string) (ds : list Z) (c : ascii),
    Number StringToNumber base = NInt b ->
    2 <= b <= 36 ->
    spec_digits s = Some ds ->
    In c (list_ascii_of_string s) ->
    65 <= charCode c <= 90 ->
    convertToDecimalBigInt StringToNumber (JString s) base
    = Err DigitInvalidForBase.
Proof.
  intros T base b s ds c Hbase Hb Hds Hin Hc.
  destruct (spec_digits_In s ds c Hds Hin) as (d & Hd & Hind).
  assert (Hd36 : 36 <= d).
  { apply spec_digit_value_getDigitValue in Hd. unfold getDigitValue in Hd.
    cbn zeta in Hd.
    assert (H1 : (48 <=? charCode c) && (charCode c <=? 57) = false)
      by (apply andb_false_iff; right; apply Z.leb_gt; lia).
    assert (H2 : (97 <=? charCode c) && (charCode c <=? 122) = false)
      by (apply andb_false_iff; left; apply Z.leb_gt; lia).
    assert (H3 : (65 <=? charCode c) && (charCode c <=? 90) = true)
      by (apply andb_true_iff; split; apply Z.leb_le; lia).
    rewrite H1, H2, H3 in Hd.
    assert (Hval : 36 + (charCode c - 65) = d) by congruence. lia. }
  unfold convertToDecimalBigInt. rewrite Hbase.
  destruct (Z.ltb_spec b 2); [lia|]. destruct (Z.gtb_spec b 62); [lia|].
  cbn [orb]. destruct s as [|c0 s]; [destruct Hin|].
  cbn [String.length Nat.eqb].
  apply (convert_loop_digit_too_big b _ ds 0 Hds).
  apply Exists_exists. exists d. split; [assumption|lia].
Qed.

Lemma capital_letter_rejected_up_to_base_36_witness :
  convertToDecimalBigInt decimalStringToNumber (JString "FF") (JString "16")
  = Err DigitInvalidForBase.
Proof.
  apply (capital_letter_rejected_up_to_base_36 decimalStringToNumber
           (JString "16") 16 "FF" [41; 41] "F"%char).
  - reflexivity.
  - lia.
  - reflexivity.
  - now left.
  - vm_compute. split; discriminate.
Defined.

(** ** The interpolation engine *)

Lemma duplicate_indices (points : list Point.t) :
  ~ NoDup (map Point.x points) ->
  exists (i j : nat) (p q : Point.t),
    i <> j /\ nth_error points i = Some p /\ nth_error points j = Some q
    /\ Point.x p = Point.x q.
Proof.
  induction points as [|a rest IH]; intros Hnd.
  - exfalso. apply Hnd. constructor.
  - cbn [map] in Hnd.
    destruct (in_dec Z.eq_dec (Point.x a) (map Point.x rest)) as [Hin|Hnotin].
    + apply in_map_iff in Hin as (q & Hx & Hq).
      destruct (In_nth_error _ _ Hq) as [j Hj].
      exists 0%nat, (S j), a, q. repeat split; [lia|assumption|congruence].
    + destruct IH as (i & j & p & q & Hij & Hp & Hq & Hx).
      { intros H. apply Hnd. now constructor. }
      exists (S i), (S j), p, q. repeat split; [lia|assumption..].
Qed.

Lemma evaluateAt_Err_cases (points : list Point.t) (x0 : Z) (e : error) :
  evaluateAt x0 points = Err e -> e = DuplicateX \/ e = NonIntegerEvaluation.
Proof.
  unfold evaluateAt. destruct points as [|p rest]; [discriminate|].
  cbn [List.length Nat.eqb].
  destruct (eval_loop_cases (p :: rest) x0 (p :: rest) 0 0 1)
    as [H|(n & d & H & Hd & _)]; [lia|reflexivity| |]; rewrite H; cbn [bind fst snd].
  - intros E. left. congruence.
  - destruct (Z.eqb_spec d 0); [contradiction|].
    rewrite bigrem_nonzero, bigdiv_nonzero by assumption. cbn [bind].
    destruct (negb _); [|discriminate]. intros E. right. congruence.
Qed.

Lemma evaluateAt_DuplicateX_iff (points : list Point.t) (x0 : Z) :
  evaluateAt x0 points = Err DuplicateX <-> ~ NoDup (map Point.x points).
Proof.
  split.
  - intros H Hnd.
    destruct (evaluateAt_cases points x0 Hnd) as [[v Hv]|He]; congruence.
  - intros Hnd.
    destruct (duplicate_indices points Hnd) as (i & j & p & q & Hij & Hp & Hq & Hx).
    now apply (evaluateAt_duplicate points x0 i j p q).
Qed.

(** X7. The ways the two evaluators fail.  [evaluateAt] fails only with
    its duplicate-x error or its not-an-integer error, and with the first
    exactly when two points share an abscissa; [findConstantTerm] fails
    only with its no-points error, exactly on the empty list, its
    duplicate-x error, exactly when two points share an abscissa, or its
    not-an-integer error.  The two "internal math error" exits are never
    taken. *)
Theorem evaluators_failures :
  forall (points : list Point.t) (x0 : Z),
    (forall e : error,
        evaluateAt x0 points = Err e ->
        e = DuplicateX \/ e = NonIntegerEvaluation)
    /\ (evaluateAt x0 points = Err DuplicateX <-> ~ NoDup (map Point.x points))
    /\ (forall e : error,
           findConstantTerm points = Err e ->
           e = NoPoints \/ e = DuplicateXDenominatorZero
           \/ e = ConstantTermNotInteger)
    /\ (findConstantTerm points = Err NoPoints <-> points = [])
    /\ (findConstantTerm points = Err DuplicateXDenominatorZero
        <-> ~ NoDup (map Point.x points)).
Proof.
  intros points x0.
  assert (Hfct : forall e : error,
             points <> [] ->
             findConstantTerm points = Err e ->
             (e = DuplicateXDenominatorZero /\ evaluateAt 0 points = Err DuplicateX)
             \/ (e = ConstantTermNotInteger
                 /\ evaluateAt 0 points = Err NonIntegerEvaluation)).
  { intros e Hne H. rewrite findConstantTerm_evaluateAt in H by assumption.
    destruct (evaluateAt 0 points) as [v|e'] eqn:E; [discriminate|].
    cbn [map_err] in H. injection H as <-.
    destruct (evaluateAt_Err_cases points 0 e' E) as [-> | ->]; [left|right];
      now split. }
  split; [|split; [|split; [|split]]].
  - intros e. apply evaluateAt_Err_cases.
  - apply evaluateAt_DuplicateX_iff.
  - intros e H. destruct points as [|p rest].
    + left. cbn in H. congruence.
    + destruct (Hfct e ltac:(discriminate) H) as [[-> _]|[-> _]]; auto.
  - split.
    + intros H. destruct points as [|p rest]; [reflexivity|].
      destruct (Hfct NoPoints ltac:(discriminate) H) as [[E _]|[E _]]; discriminate.
    + intros ->. reflexivity.
  - split.
    + intros H. destruct points as [|p rest]; [discriminate|].
      destruct (Hfct _ ltac:(discriminate) H) as [[_ E]|[E _]]; [|discriminate].
      now apply (evaluateAt_DuplicateX_iff (p :: rest) 0).
    + intros Hnd.
      assert (Hne : points <> []) by (intros ->; apply Hnd; constructor).
      rewrite findConstantTerm_evaluateAt by assumption.
      now rewrite (proj2 (evaluateAt_DuplicateX_iff points 0) Hnd).
Qed.

Lemma evaluators_failures_witness :
  NonIntegerEvaluation = DuplicateX \/ NonIntegerEvaluation = NonIntegerEvaluation.
Proof.
  apply (proj1 (evaluators_failures [Point.mk 1 2; Point.mk 3 3] 0)).
  vm_compute. reflexivity.
Defined.

(** X8. On a non-empty list [findConstantTerm] is [evaluateAt] at 0: the
    two return the same value, and fail together, each with its own
    message for the same cause. *)
Theorem constant_term_is_evaluation_at_zero :
  forall points : list Point.t,
    points <> [] ->
    (forall v : Z, findConstantTerm points = Ok v <-> evaluateAt 0 points = Ok v)
    /\ (findConstantTerm points = Err DuplicateXDenominatorZero
        <-> evaluateAt 0 points = Err DuplicateX)
    /\ (findConstantTerm points = Err ConstantTermNotInteger
        <-> evaluateAt 0 points = Err NonIntegerEvaluation).
Proof.
  intros points Hne. rewrite findConstantTerm_evaluateAt by assumption.
  destruct (evaluateAt 0 points) as [v|e] eqn:E; cbn [map_err].
  - repeat split; intros H; congruence.
  - destruct (evaluateAt_Err_cases points 0 e E) as [-> | ->]; cbn;
      repeat split; intros H; congruence.
Qed.

Lemma constant_term_is_evaluation_at_zero_witness :
  findConstantTerm example_points = Ok 3 <-> evaluateAt 0 example_points = Ok 3.
Proof.
  apply (proj1 (constant_term_is_evaluation_at_zero example_points
                  ltac:(discriminate)) 3).
Defined.

(** X9. Over points with distinct abscissas that lie on a polynomial with
    no more coefficients than there are points, [evaluateAt] returns the
    value of the polynomial at every integer [x0], between the points and
    beyond them, and [findConstantTerm] its value at 0. *)
Theorem evaluateAt_on_polynomial :
  forall (points : list Point.t) (c : list Z),
    points <> [] ->
    NoDup (map Point.x points) ->
    on_poly c points ->
    (List.length c <= List.length points)%nat ->
    (forall x0 : Z, evaluateAt x0 points = Ok (peval c x0))
    /\ findConstantTerm points = Ok (peval c 0).
Proof.
  intros points c Hne Hnd Hon Hlen. split.
  - intros x0. now apply evaluateAt_poly.
  - now apply findConstantTerm_poly.
Qed.

Lemma evaluateAt_on_polynomial_witness :
  (forall x0 : Z,
      evaluateAt x0 (example_points ++ [Point.mk 6 39]) = Ok (peval [3; 0; 1] x0))
  /\ findConstantTerm (example_points ++ [Point.mk 6 39]) = Ok (peval [3; 0; 1] 0).
Proof.
  apply (evaluateAt_on_polynomial (example_points ++ [Point.mk 6 39]) [3; 0; 1]).
  - discriminate.
  - repeat (constructor; [cbn; intuition discriminate|]). constructor.
  - repeat constructor.
  - cbn. lia.
Defined.

(** X10. The order of the points does not matter: on a rearrangement of
    the list both evaluators return the same value or fail with the same
    error. *)
Theorem evaluators_order_independent :
  forall (p1 p2 : list Point.t) (x0 : Z),
    Permutation p1 p2 ->
    evaluateAt x0 p2 = evaluateAt x0 p1
    /\ findConstantTerm p2 = findConstantTerm p1.
Proof.
  intros p1 p2 x0 Hperm.
  assert (Heval : forall x1 : Z, evaluateAt x1 p2 = evaluateAt x1 p1).
  { intros x1.
    destruct (ListDec.NoDup_dec Z.eq_dec (map Point.x p1)) as [Hnd1|Hnd1].
    - destruct p1 as [|a rest].
      + apply Permutation_nil in Hperm. now subst.
      + assert (Hnd2 : NoDup (map Point.x p2))
          by (eapply Permutation_NoDup; [apply Permutation_map; exact Hperm|assumption]).
        apply evaluateAt_agree; try assumption; [discriminate| |].
        * now rewrite (Permutation_length Hperm).
        * intros q Hq. apply (Permutation_in _ (Permutation_sym Hperm)) in Hq.
          destruct (In_nth_error _ _ Hq) as [m Hm].
          now apply (evaluateAt_node _ m).
    - assert (Hnd2 : ~ NoDup (map Point.x p2)).
      { intros H. apply Hnd1.
        eapply Permutation_NoDup;
          [apply Permutation_map, Permutation_sym; exact Hperm|assumption]. }
      rewrite (proj2 (evaluateAt_DuplicateX_iff p1 x1) Hnd1).
      now rewrite (proj2 (evaluateAt_DuplicateX_iff p2 x1) Hnd2). }
  split; [apply Heval|].
  destruct p1 as [|a rest].
  - apply Permutation_nil in Hperm. now subst.
  - assert (Hne2 : p2 <> []).
    { intros ->. apply Permutation_sym, Permutation_nil in Hperm. discriminate. }
    rewrite !findConstantTerm_evaluateAt by (assumption || discriminate).
    now rewrite Heval.
Qed.

Lemma evaluators_order_independent_witness :
  evaluateAt 6 [Point.mk 3 12; Point.mk 1 4; Point.mk 2 7] = evaluateAt 6 example_points
  /\ findConstantTerm [Point.mk 3 12; Point.mk 1 4; Point.mk 2 7]
     = findConstantTerm example_points.
Proof.
  apply (evaluators_order_independent example_points
           [Point.mk 3 12; Point.mk 1 4; Point.mk 2 7] 6).
  unfold example_points.
  apply Permutation_sym, (Permutation_cons_app [Point.mk 1 4; Point.mk 2 7] []).
  reflexivity.
Defined.

(** ** Verification and the pipeline *)

(** X11. Verification stops at the first point that the subset does not
    reproduce: when the points before it are reproduced, a value other
    than its ordinate makes the verdict false and an error at it is the
    error of the verification, whatever the points after it are. *)
Theorem verifyAllPoints_first_mismatch :
  forall (selected before rest : list Point.t) (bad : Point.t),
    Forall (fun p => evaluateAt (Point.x p) selected = Ok (Point.y p)) before ->
    (forall v : Z,
        evaluateAt (Point.x bad) selected = Ok v -> v <> Point.y bad ->
        verifyAllPoints selected (before ++ bad :: rest) = Ok false)
    /\ (forall e : error,
           evaluateAt (Point.x bad) selected = Err e ->
           verifyAllPoints selected (before ++ bad :: rest) = Err e).
Proof.
  intros selected before rest bad Hbefore.
  induction Hbefore as [|p before Hp Hbefore IH]; cbn [app verifyAllPoints].
  - split.
    + intros v Hv Hne. rewrite Hv. cbn [bind].
      destruct (Z.eqb_spec v (Point.y bad)); [contradiction|reflexivity].
    + intros e He. rewrite He. reflexivity.
  - rewrite Hp. cbn [bind]. rewrite Z.eqb_refl. cbn [negb]. exact IH.
Qed.

Lemma verifyAllPoints_first_mismatch_witness :
  verifyAllPoints example_points
    ([Point.mk 1 4] ++ Point.mk 6 40 :: [Point.mk 2 8]) = Ok false.
Proof.
  apply (proj1 (verifyAllPoints_first_mismatch example_points
                  [Point.mk 1 4] [Point.mk 2 8] (Point.mk 6 40)
                  ltac:(repeat constructor)) 39).
  - reflexivity.
  - discriminate.
Defined.

Lemma NoDup_map_injective (l : list Point.t) (a b : Point.t) :
  NoDup (map Point.x l) -> In a l -> In b l -> Point.x a = Point.x b -> a = b.
Proof.
  induction l as [|c l IH]; intros Hnd Ha Hb Hx; [destruct Ha|].
  cbn [map] in Hnd. inversion Hnd as [|? ? Hnotin Hnd']; subst.
  destruct Ha as [<-|Ha], Hb as [<-|Hb].
  - reflexivity.
  - exfalso. apply Hnotin. rewrite Hx. now apply in_map.
  - exfalso. apply Hnotin. rewrite <- Hx. now apply in_map.
  - now apply IH.
Qed.

(** Two sorted rearrangements of points with distinct abscissas are one
    list. *)
Lemma sorted_perm_unique (l1 : list Point.t) :
  forall l2 : list Point.t,
    StronglySorted x_le l1 -> StronglySorted x_le l2 ->
    Permutation l1 l2 -> NoDup (map Point.x l1) -> l1 = l2.
Proof.
  induction l1 as [|a l1 IH]; intros l2 Hs1 Hs2 Hperm Hnd.
  - apply Permutation_nil in Hperm. now subst.
  - destruct l2 as [|b l2].
    + apply Permutation_sym, Permutation_nil in Hperm. discriminate.
    + inversion Hs1 as [|? ? Hs1' Ha]; subst.
      inversion Hs2 as [|? ? Hs2' Hb]; subst.
      rewrite Forall_forall in Ha, Hb.
      assert (Hab : a = b).
      { assert (Hina : In a (b :: l2))
          by (apply (Permutation_in _ Hperm); now left).
        assert (Hinb : In b (a :: l1))
          by (apply (Permutation_in _ (Permutation_sym Hperm)); now left).
        apply (NoDup_map_injective (a :: l1)); [assumption|now left|assumption|].
        assert (Point.x a <= Point.x b).
        { destruct Hinb as [<-|Hinb]; [lia|now apply Ha]. }
        assert (Point.x b <= Point.x a).
        { destruct Hina as [<-|Hina]; [lia|now apply Hb]. }
        lia. }
      subst b. f_equal. apply IH; try assumption.
      * now apply Permutation_cons_inv in Hperm.
      * cbn [map] in Hnd. now inversion Hnd.
Qed.

Section PipelineExtras.

Variable StringToNumber : string -> jsnum.

Lemma decode_props_cons (key : string) (entry : Entry.t)
  (rest : list (string * Entry.t)) (acc : list Point.t) :
  decode_props StringToNumber ((key, entry) :: rest) acc
  = (o <- decode_entry StringToNumber key entry ;;
     decode_props StringToNumber rest
       (match o with Some p => acc ++ [p] | None => acc end)).
Proof.
  cbn [decode_props]. unfold decode_entry.
  destruct (String.eqb key "keys"); [reflexivity|].
  destruct (StringToNumber key) as [x|]; [|reflexivity].
  destruct (Entry.base entry) as [|m|s]; [reflexivity| |];
    destruct (Entry.value entry) as [|m'|s']; try reflexivity;
    destruct (convertToDecimalBigInt _ _ _); reflexivity.
Qed.

Lemma decode_props_Ok_iff (props : list (string * Entry.t)) :
  forall (acc pts : list Point.t),
    decode_props StringToNumber props acc = Ok pts
    <-> Forall (entry_ok StringToNumber) props
        /\ pts = acc ++ entry_points StringToNumber props.
Proof.
  induction props as [|[key entry] rest IH]; intros acc pts.
  - cbn. rewrite app_nil_r. split.
    + intros H. injection H as <-. split; [constructor|reflexivity].
    + intros [_ ->]. reflexivity.
  - rewrite decode_props_cons. unfold entry_points. cbn [flat_map fst snd].
    fold (entry_points StringToNumber rest).
    destruct (decode_entry StringToNumber key entry) as [o|e] eqn:E; cbn [bind].
    + rewrite IH. split.
      * intros [Hall ->]. split.
        -- constructor; [now exists o|assumption].
        -- destruct o; [now rewrite <- app_assoc|reflexivity].
      * intros [Hall ->]. split; [now inversion Hall|].
        destruct o; [now rewrite <- app_assoc|reflexivity].
    + split; [discriminate|]. intros [Hall _]. inversion Hall as [|? ? [o Ho] _]; subst.
      cbn [fst snd] in Ho. congruence.
Qed.

Lemma decode_entry_Err (key : string) (entry : Entry.t) (e : error) :
  decode_entry StringToNumber key entry = Err e ->
  In e [InvalidXKey; BadPointFormat; InvalidBase; EmptyValue; UnsupportedDigit;
        DigitInvalidForBase].
Proof.
  unfold decode_entry. destruct (String.eqb key "keys"); [discriminate|].
  destruct (StringToNumber key) as [x|]; [|intros H; injection H as <-; cbn; auto].
  assert (Hconv : forall value base,
             (yBig <- convertToDecimalBigInt StringToNumber value base ;;
              Ok (Some (Point.mk x yBig))) = Err e ->
             In e [InvalidXKey; BadPointFormat; InvalidBase; EmptyValue;
                   UnsupportedDigit; DigitInvalidForBase]).
  { intros value base. unfold convertToDecimalBigInt.
    destruct (Number StringToNumber base) as [b|];
      [|intros H; injection H as <-; cbn; auto].
    destruct ((b <? 2) || (b >? 62)); [intros H; injection H as <-; cbn; auto|].
    destruct value as [| |s]; try (intros H; injection H as <-; cbn; auto).
    destruct (String.length s =? 0)%nat; [intros H; injection H as <-; cbn; auto|].
    generalize 0 as res. induction s as [|c s IHs]; intros res; cbn [convert_loop bind].
    - discriminate.
    - unfold getDigitValue. cbn zeta.
      repeat match goal with
             | |- context [if ?b then _ else _] => destruct b; cbn [bind]
             end;
        try apply IHs; intros H; injection H as <-; cbn; auto 10. }
  destruct (Entry.base entry) as [|m|s];
    [intros H; injection H as <-; cbn; auto| |];
    destruct (Entry.value entry) as [|m'|s'];
    try (intros H; injection H as <-; cbn; now auto);
    apply Hconv.
Qed.

Lemma decode_props_Err (props : list (string * Entry.t)) :
  forall (acc : list Point.t) (e : error),
    decode_props StringToNumber props acc = Err e ->
    In e [InvalidXKey; BadPointFormat; InvalidBase; EmptyValue; UnsupportedDigit;
          DigitInvalidForBase].
Proof.
  induction props as [|[key entry] rest IH]; intros acc e H.
  - discriminate.
  - rewrite decode_props_cons in H.
    destruct (decode_entry StringToNumber key entry) as [o|e'] eqn:E; cbn [bind] in H.
    + now apply IH in H.
    + injection H as <-. now apply decode_entry_Err in E.
Qed.

End PipelineExtras.

Lemma decode_entry_point (StringToNumber : string -> jsnum) (key : string)
  (entry : Entry.t) (p : Point.t) :
  decode_entry StringToNumber key entry = Ok (Some p) ->
  StringToNumber key = NInt (Point.x p) /\ 0 <= Point.y p.
Proof.
  unfold decode_entry. destruct (String.eqb key "keys"); [discriminate|].
  destruct (StringToNumber key) as [x|]; [|discriminate].
  assert (Hconv : forall value base,
             (yBig <- convertToDecimalBigInt StringToNumber value base ;;
              Ok (Some (Point.mk x yBig))) = Ok (Some p) ->
             NInt x = NInt (Point.x p) /\ 0 <= Point.y p).
  { intros value base H.
    destruct (convertToDecimalBigInt StringToNumber value base) as [v|e] eqn:E;
      [|discriminate].
    cbn [bind] in H. injection H as <-. cbn [Point.x Point.y].
    destruct (convertToDecimalBigInt_Ok_digits _ _ _ _ E)
      as (s & b & ds & _ & _ & _ & _ & _ & _ & _ & Hv).
    split; [reflexivity|lia]. }
  destruct (Entry.base entry) as [|m|s]; [discriminate| |];
    destruct (Entry.value entry) as [|m'|s']; try discriminate; apply Hconv.
Qed.

Lemma entry_points_nonneg (StringToNumber : string -> jsnum)
  (props : list (string * Entry.t)) :
  Forall (fun p => 0 <= Point.y p) (entry_points StringToNumber props).
Proof.
  unfold entry_points. rewrite Forall_forall. intros p Hp.
  apply in_flat_map in Hp as ([key entry] & _ & Hp). cbn [fst snd] in Hp.
  destruct (decode_entry StringToNumber key entry) as [[q|]|e] eqn:E;
    [|destruct Hp..].
  destruct Hp as [<-|[]]. now apply decode_entry_point in E.
Qed.

Lemma entry_points_perm (StringToNumber : string -> jsnum)
  (props props' : list (string * Entry.t)) :
  Permutation props props' ->
  Permutation (entry_points StringToNumber props)
    (entry_points StringToNumber props').
Proof.
  intros H. unfold entry_points. now apply Permutation_flat_map.
Qed.

Section SolveExtras.

Variable StringToNumber : string -> jsnum.

(** On an input of this embedding, a parsed object whose properties hold
    objects, a failure of [solve] is one of the errors of [solve_errors]. *)
Lemma solve_Err_listed (data : Input.t) (e : error) :
  solve StringToNumber data = Err e -> In e solve_errors.
Proof.
  intros H. unfold solve in H.
  destruct (Input.keys data) as [ks|];
    [|injection H as <-; unfold solve_errors; cbn; auto].
  destruct (isInteger (Keys.n ks)) as [n|];
    [|injection H as <-; unfold solve_errors; cbn; auto].
  destruct (isInteger (Keys.k ks)) as [k|];
    [|injection H as <-; unfold solve_errors; cbn; auto].
  destruct (decode_props StringToNumber (Input.props data) []) as [pts|e'] eqn:Hdec;
    cbn [bind] in H.
  2:{ injection H as <-. apply decode_props_Err in Hdec.
      unfold solve_errors. cbn [In] in *. intuition auto 20. }
  destruct (Z.of_nat (List.length pts) <? k);
    [injection H as <-; unfold solve_errors; cbn; auto 20|].
  cbn zeta in H. set (sel := slice0 (sort_by_x pts) k) in *.
  destruct (Nat.eqb_spec (set_size (map Point.x sel)) (List.length sel))
    as [Hset|Hset]; cbn [negb] in H;
    [|injection H as <-; unfold solve_errors; cbn; auto 20].
  rewrite <- (length_map Point.x) in Hset. apply set_size_NoDup in Hset.
  destruct (findConstantTerm_cases sel Hset) as [[v Hv]|[He|He]];
    rewrite ?Hv, ?He in H; cbn [bind] in H;
    try (injection H as <-; unfold solve_errors; cbn; now auto 20).
  destruct (verifyAllPoints_cases sel Hset (sort_by_x pts)) as [[[|] Hb]|He];
    rewrite ?Hb, ?He in H; cbn [bind negb] in H;
    try discriminate; injection H as <-; unfold solve_errors; cbn; auto 20.
Qed.

(** X12. The failures of the evaluators that [solve] shields its caller
    from: the duplicate-x errors of [findConstantTerm] and [evaluateAt],
    their two "internal math error" exits and a division by zero never
    come out of [solve], since the duplicate check of [solve] comes before
    the evaluators. *)
Theorem solve_failures :
  forall (data : Input.t) (e : error),
    solve StringToNumber data = Err e ->
    e <> DuplicateXDenominatorZero /\ e <> DuplicateX
    /\ e <> FinalDenominatorZero /\ e <> DenominatorZero
    /\ e <> RangeErrorDivisionByZero.
Proof.
  intros data e H. apply solve_Err_listed in H.
  unfold solve_errors in H. cbn [In] in H.
  repeat split; intros ->; intuition discriminate.
Qed.

(** X13. What a successful [solve] says of the data: points of one
    abscissa have one ordinate, no ordinate is negative, the selected
    subset is not empty and is the beginning of the sorted points, and the
    constant term is the value of [evaluateAt] at 0 over the subset. *)
Theorem solve_success_dataset :
  forall (data : Input.t) (r : Solution.t),
    solve StringToNumber data = Ok r ->
    (forall p q : Point.t,
        In p (Solution.allPoints r) -> In q (Solution.allPoints r) ->
        Point.x p = Point.x q -> Point.y p = Point.y q)
    /\ Forall (fun p => 0 <= Point.y p) (Solution.allPoints r)
    /\ Solution.selectedPoints r <> []
    /\ (exists rest : list Point.t,
           Solution.allPoints r = Solution.selectedPoints r ++ rest)
    /\ evaluateAt 0 (Solution.selectedPoints r) = Ok (Solution.constantTerm r).
Proof.
  intros data r Hsolve.
  destruct (solve_Ok_inv StringToNumber data r Hsolve)
    as (ks & n & k & pts & _ & _ & _ & Hdec & _ & Hall & Hsel & Hnd & Hc & Hver).
  assert (Hne : Solution.selectedPoints r <> []).
  { intros E. rewrite E in Hc. discriminate. }
  rewrite verifyAllPoints_true, Forall_forall in Hver.
  split; [|split; [|split; [|split]]].
  - intros p q Hp Hq Hx.
    pose proof (Hver p Hp) as Ep. pose proof (Hver q Hq) as Eq.
    rewrite Hx in Ep. congruence.
  - rewrite Hall. apply decode_props_Ok_iff in Hdec as [_ ->]. cbn [app].
    eapply Permutation_Forall; [apply sort_by_x_perm|].
    apply entry_points_nonneg.
  - assumption.
  - rewrite Hall, Hsel. apply slice0_prefix.
  - rewrite findConstantTerm_evaluateAt in Hc by assumption.
    destruct (evaluateAt 0 (Solution.selectedPoints r)) as [v|e];
      cbn [map_err] in Hc; congruence.
Qed.

(** X14. After a successful [solve] the choice of the subset does not
    matter: any points of the data with distinct abscissas, as many as
    were selected or more, give the same constant term and the same value
    at every [x0] as the selected ones. *)
Theorem solve_any_subset_agrees :
  forall (data : Input.t) (r : Solution.t) (other : list Point.t),
    solve StringToNumber data = Ok r ->
    (forall q : Point.t, In q other -> In q (Solution.allPoints r)) ->
    NoDup (map Point.x other) ->
    (List.length (Solution.selectedPoints r) <= List.length other)%nat ->
    findConstantTerm other = Ok (Solution.constantTerm r)
    /\ forall x0 : Z,
        evaluateAt x0 other = evaluateAt x0 (Solution.selectedPoints r).
Proof.
  intros data r other Hsolve Hincl Hnd Hlen.
  destruct (solve_Ok_inv StringToNumber data r Hsolve)
    as (ks & n & k & pts & _ & _ & _ & _ & _ & _ & _ & Hsel_nd & Hc & Hver).
  assert (Hne : Solution.selectedPoints r <> []).
  { intros E. rewrite E in Hc. discriminate. }
  rewrite verifyAllPoints_true, Forall_forall in Hver.
  assert (Heval : forall x0 : Z,
             evaluateAt x0 other = evaluateAt x0 (Solution.selectedPoints r)).
  { apply evaluateAt_agree; try assumption.
    intros q Hq. apply Hver. now apply Hincl. }
  split; [|exact Heval].
  assert (Hne' : other <> []).
  { intros ->. destruct (Solution.selectedPoints r); [contradiction|cbn in Hlen; lia]. }
  rewrite findConstantTerm_evaluateAt in * by assumption.
  now rewrite Heval.
Qed.

(** X15. The failures of the selection, once the points are decoded:
    fewer points than [k] is the need-at-least-k error; a [k] of 0, or a
    negative [k] that leaves nothing of the list, is the no-points error of
    [findConstantTerm]; two equal abscissas among the selected points is
    the duplicate error of [solve]. *)
Theorem solve_selection_failures :
  forall (data : Input.t) (ks : Keys.t) (n k : Z) (pts : list Point.t),
    Input.keys data = Some ks ->
    isInteger (Keys.n ks) = Some n ->
    isInteger (Keys.k ks) = Some k ->
    decode_props StringToNumber (Input.props data) [] = Ok pts ->
    (Z.of_nat (List.length pts) < k ->
     solve StringToNumber data = Err NeedAtLeastK)
    /\ (k = 0 \/ (k < 0 /\ Z.of_nat (List.length pts) + k <= 0) ->
        solve StringToNumber data = Err NoPoints)
    /\ (k <= Z.of_nat (List.length pts) ->
        ~ NoDup (map Point.x (slice0 (sort_by_x pts) k)) ->
        solve StringToNumber data = Err DuplicateSelected).
Proof.
  intros data ks n k pts Hks Hn Hk Hdec.
  rewrite (solve_decoded StringToNumber data ks n k pts Hks Hn Hk Hdec).
  split; [|split].
  - intros Hlt. destruct (Z.ltb_spec (Z.of_nat (List.length pts)) k); [reflexivity|lia].
  - intros Hk0.
    destruct (Z.ltb_spec (Z.of_nat (List.length pts)) k); [lia|]. cbn zeta.
    assert (Hsel : slice0 (sort_by_x pts) k = []).
    { unfold slice0. rewrite sort_by_x_length.
      destruct (Z.ltb_spec k 0).
      - replace (Z.to_nat _) with 0%nat by lia. reflexivity.
      - replace (Z.to_nat _) with 0%nat by lia. reflexivity. }
    rewrite Hsel. reflexivity.
  - intros Hle Hdup.
    destruct (Z.ltb_spec (Z.of_nat (List.length pts)) k); [lia|]. cbn zeta.
    destruct (Nat.eqb_spec (set_size (map Point.x (slice0 (sort_by_x pts) k)))
                (List.length (slice0 (sort_by_x pts) k))) as [Hset|Hset];
      [|reflexivity].
    exfalso. apply Hdup. apply set_size_NoDup. now rewrite length_map.
Qed.

(** X16. The order of the properties of the input does not matter when
    the points decode and their abscissas are pairwise distinct: [solve]
    returns the same result on any rearrangement of them. *)
Theorem solve_order_independent :
  forall (keys : option Keys.t) (props props' : list (string * Entry.t))
         (pts : list Point.t),
    Permutation props props' ->
    decode_props StringToNumber props [] = Ok pts ->
    NoDup (map Point.x pts) ->
    solve StringToNumber (Input.mk keys props')
    = solve StringToNumber (Input.mk keys props).
Proof.
  intros keys props props' pts Hperm Hdec Hnd.
  pose proof Hdec as Hdec0.
  apply decode_props_Ok_iff in Hdec as [Hall Hpts]. cbn [app] in Hpts.
  assert (Hdec' : decode_props StringToNumber props' []
                  = Ok (entry_points StringToNumber props')).
  { apply decode_props_Ok_iff. split; [|reflexivity].
    eapply Permutation_Forall; eassumption. }
  assert (Hpp : Permutation pts (entry_points StringToNumber props')).
  { rewrite Hpts. now apply entry_points_perm. }
  assert (Hsort : sort_by_x (entry_points StringToNumber props') = sort_by_x pts).
  { symmetry. apply sorted_perm_unique.
    - apply sort_by_x_sorted.
    - apply sort_by_x_sorted.
    - rewrite <- (sort_by_x_perm pts), <- (sort_by_x_perm _). exact Hpp.
    - now apply sort_by_x_NoDup. }
  unfold solve. cbn [Input.keys Input.props].
  destruct keys as [ks|]; [|reflexivity].
  destruct (isInteger (Keys.n ks)); [|reflexivity].
  destruct (isInteger (Keys.k ks)); [|reflexivity].
  rewrite Hdec0, Hdec'. cbn [bind].
  now rewrite Hsort, (Permutation_length Hpp).
Qed.

(** X17. The first property that does not decode decides the error of
    [solve], whatever follows it and whatever [k] is: a key that is not an
    integer gives the invalid-key error; otherwise a missing base or a
    value that is not a string gives the bad-format error; otherwise the
    error of the decoder is the error of [solve]. *)
Theorem solve_first_bad_entry :
  forall (n k : Z) (good rest : list (string * Entry.t)) (pts : list Point.t)
         (key : string) (entry : Entry.t),
    decode_props StringToNumber good [] = Ok pts ->
    key <> "keys"%string ->
    let data :=
      Input.mk (Some (Keys.mk (JNumber (NInt n)) (JNumber (NInt k))))
        (good ++ (key, entry) :: rest) in
    (StringToNumber key = NNonInt ->
     solve StringToNumber data = Err InvalidXKey)
    /\ (forall x : Z,
           StringToNumber key = NInt x ->
           (Entry.base entry = JUndefined
            \/ forall s : string, Entry.value entry <> JString s) ->
           solve StringToNumber data = Err BadPointFormat)
    /\ (forall (x : Z) (s : string) (e : error),
           StringToNumber key = NInt x ->
           Entry.base entry <> JUndefined ->
           Entry.value entry = JString s ->
           convertToDecimalBigInt StringToNumber (JString s) (Entry.base entry)
           = Err e ->
           solve StringToNumber data = Err e).
Proof.
  intros n k good rest pts key entry Hgood Hkey data.
  assert (Hstep : forall e : error,
             decode_entry StringToNumber key entry = Err e ->
             solve StringToNumber data = Err e).
  { intros e He. unfold solve, data.
    cbn [Input.keys Input.props Keys.n Keys.k isInteger].
    assert (Hall : Forall (entry_ok StringToNumber) good)
      by (apply decode_props_Ok_iff in Hgood; tauto).
    assert (Hdec : forall acc : list Point.t,
               decode_props StringToNumber (good ++ (key, entry) :: rest) acc
               = Err e).
    { clear Hgood. induction Hall as [|[k0 e0] good [o Ho] _ IH];
        intros acc; cbn [app].
      - rewrite decode_props_cons, He. reflexivity.
      - rewrite decode_props_cons. cbn [fst snd] in Ho. rewrite Ho. cbn [bind].
        apply IH. }
    now rewrite Hdec. }
  apply String.eqb_neq in Hkey.
  split; [|split].
  - intros HT. apply Hstep. unfold decode_entry. now rewrite Hkey, HT.
  - intros x HT Hbad. apply Hstep. unfold decode_entry. rewrite Hkey, HT.
    destruct Hbad as [-> | Hval]; [reflexivity|].
    destruct (Entry.base entry); [reflexivity| |];
      destruct (Entry.value entry) as [| |s1]; try reflexivity;
      exfalso; now apply (Hval s1).
  - intros x s e HT Hbase Hval He. apply Hstep. unfold decode_entry.
    rewrite Hkey, HT, Hval.
    destruct (Entry.base entry) as [|m|s0]; [contradiction| |];
      rewrite He; reflexivity.
Qed.

(** X18. A subset size larger than the polynomial needs does no harm: for
    decoded points with distinct abscissas on a polynomial with at most
    [k] coefficients, and [k] between 1 and the number of points, [solve]
    returns the value of the polynomial at 0, with the first [k] sorted
    points as the subset. *)
Theorem solve_with_sufficient_k :
  forall (data : Input.t) (ks : Keys.t) (n : Z) (k : nat)
         (pts : list Point.t) (c : list Z),
    Input.keys data = Some ks ->
    isInteger (Keys.n ks) = Some n ->
    isInteger (Keys.k ks) = Some (Z.of_nat k) ->
    decode_props StringToNumber (Input.props data) [] = Ok pts ->
    (1 <= k <= List.length pts)%nat ->
    (List.length c <= k)%nat ->
    NoDup (map Point.x pts) ->
    on_poly c pts ->
    solve StringToNumber data
    = Ok (Solution.mk (peval c 0) (firstn k (sort_by_x pts)) (sort_by_x pts)).
Proof.
  intros data ks n k pts c Hks Hn Hk Hdec Hrange Hc Hnd Hon.
  set (sel := firstn k (sort_by_x pts)).
  assert (Hslice : slice0 (sort_by_x pts) (Z.of_nat k) = sel).
  { rewrite slice0_count by (rewrite sort_by_x_length; lia).
    now rewrite Nat2Z.id. }
  assert (Hsel_nd : NoDup (map Point.x sel)).
  { rewrite <- Hslice. now apply slice0_NoDup, sort_by_x_NoDup. }
  assert (Hsel_len : List.length sel = k).
  { unfold sel. rewrite length_firstn, sort_by_x_length. lia. }
  assert (Hsel_ne : sel <> []).
  { intros E. rewrite E in Hsel_len. cbn in Hsel_len. lia. }
  assert (Hsel_on : on_poly c sel).
  { unfold on_poly in *. rewrite Forall_forall in *. intros p Hp.
    apply Hon. rewrite <- Hslice in Hp. now apply selected_In in Hp. }
  assert (Hver : verifyAllPoints sel (sort_by_x pts) = Ok true).
  { apply verifyAllPoints_true. rewrite Forall_forall. intros p Hp.
    rewrite (evaluateAt_poly sel c) by (try assumption; lia).
    unfold on_poly in Hon. rewrite Forall_forall in Hon. rewrite (Hon p); [reflexivity|].
    now apply (Permutation_in _ (Permutation_sym (sort_by_x_perm pts))). }
  rewrite (solve_decoded StringToNumber data ks n _ pts Hks Hn Hk Hdec).
  destruct (Z.ltb_spec (Z.of_nat (List.length pts)) (Z.of_nat k)); [lia|].
  cbn zeta. rewrite Hslice.
  rewrite (proj2 (set_size_NoDup _) Hsel_nd), length_map, Nat.eqb_refl. cbn [negb].
  rewrite (findConstantTerm_poly sel c) by (try assumption; lia).
  cbn [bind]. rewrite Hver. reflexivity.
Qed.

End SolveExtras.

Lemma solve_failures_witness :
  DuplicateSelected <> DuplicateXDenominatorZero
  /\ DuplicateSelected <> DuplicateX
  /\ DuplicateSelected <> FinalDenominatorZero
  /\ DuplicateSelected <> DenominatorZero
  /\ DuplicateSelected <> RangeErrorDivisionByZero.
Proof.
  apply (solve_failures decimalStringToNumber example_repeated_input).
  vm_compute. reflexivity.
Defined.

Lemma solve_success_dataset_witness :
  (forall p q : Point.t,
      In p (example_points ++ [Point.mk 6 39]) ->
      In q (example_points ++ [Point.mk 6 39]) ->
      Point.x p = Point.x q -> Point.y p = Point.y q)
  /\ Forall (fun p => 0 <= Point.y p) (example_points ++ [Point.mk 6 39])
  /\ example_points <> []
  /\ (exists rest : list Point.t,
         example_points ++ [Point.mk 6 39] = example_points ++ rest)
  /\ evaluateAt 0 example_points = Ok 3.
Proof.
  apply (solve_success_dataset decimalStringToNumber example_input
           (Solution.mk 3 example_points (example_points ++ [Point.mk 6 39]))).
  vm_compute. reflexivity.
Defined.

Lemma solve_any_subset_agrees_witness :
  findConstantTerm [Point.mk 6 39; Point.mk 1 4; Point.mk 3 12] = Ok 3
  /\ forall x0 : Z,
      evaluateAt x0 [Point.mk 6 39; Point.mk 1 4; Point.mk 3 12]
      = evaluateAt x0 example_points.
Proof.
  apply (solve_any_subset_agrees decimalStringToNumber example_input
           (Solution.mk 3 example_points (example_points ++ [Point.mk 6 39]))
           [Point.mk 6 39; Point.mk 1 4; Point.mk 3 12]).
  - vm_compute. reflexivity.
  - cbn. intuition auto.
  - repeat (constructor; [cbn; intuition discriminate|]). constructor.
  - cbn. lia.
Defined.

Lemma solve_selection_failures_witness :
  solve decimalStringToNumber (example_with_keys 4 5) = Err NeedAtLeastK.
Proof.
  apply (proj1 (solve_selection_failures decimalStringToNumber
                  (example_with_keys 4 5)
                  (Keys.mk (JNumber (NInt 4)) (JNumber (NInt 5))) 4 5
                  (example_points ++ [Point.mk 6 39])
                  eq_refl eq_refl eq_refl eq_refl)).
  cbn. lia.
Defined.

Lemma solve_order_independent_witness :
  solve decimalStringToNumber
    (Input.mk (Input.keys example_input)
       [ ("6"%string, Entry.mk (JString "4") (JString "213"));
         ("1"%string, Entry.mk (JString "10") (JString "4"));
         ("2"%string, Entry.mk (JString "2") (JString "111"));
         ("3"%string, Entry.mk (JString "10") (JString "12")) ])
  = solve decimalStringToNumber
      (Input.mk (Input.keys example_input) (Input.props example_input)).
Proof.
  apply (solve_order_independent decimalStringToNumber
           (Input.keys example_input) (Input.props example_input) _
           (example_points ++ [Point.mk 6 39])).
  - apply Permutation_sym.
    apply (Permutation_cons_app
             [ ("1"%string, Entry.mk (JString "10") (JString "4"));
               ("2"%string, Entry.mk (JString "2") (JString "111"));
               ("3"%string, Entry.mk (JString "10") (JString "12")) ] []).
    reflexivity.
  - vm_compute. reflexivity.
  - repeat (constructor; [cbn; intuition discriminate|]). constructor.
Defined.

Lemma solve_first_bad_entry_witness :
  solve decimalStringToNumber
    (Input.mk (Some (Keys.mk (JNumber (NInt 3)) (JNumber (NInt 2))))
       ([ ("1"%string, Entry.mk (JString "10") (JString "4")) ]
          ++ ("2"%string, Entry.mk (JString "16") (JString "FF"))
          :: [ ("x"%string, Entry.mk JUndefined JUndefined) ]))
  = Err DigitInvalidForBase.
Proof.
  apply (proj2 (proj2 (solve_first_bad_entry decimalStringToNumber 3 2
                         [ ("1"%string, Entry.mk (JString "10") (JString "4")) ]
                         [ ("x"%string, Entry.mk JUndefined JUndefined) ]
                         [Point.mk 1 4] "2"
                         (Entry.mk (JString "16") (JString "FF"))
                         eq_refl ltac:(discriminate)))
           2 "FF"%string DigitInvalidForBase).
  - reflexivity.
  - discriminate.
  - reflexivity.
  - reflexivity.
Defined.

Lemma solve_with_sufficient_k_witness :
  solve decimalStringToNumber (example_with_keys 4 4)
  = Ok (Solution.mk (peval [3; 0; 1] 0)
          (firstn 4 (sort_by_x (example_points ++ [Point.mk 6 39])))
          (sort_by_x (example_points ++ [Point.mk 6 39]))).
Proof.
  apply (solve_with_sufficient_k decimalStringToNumber (example_with_keys 4 4)
           (Keys.mk (JNumber (NInt 4)) (JNumber (NInt 4))) 4 4%nat
           (example_points ++ [Point.mk 6 39]) [3; 0; 1]).
  - reflexivity.
  - reflexivity.
  - reflexivity.
  - vm_compute. reflexivity.
  - cbn. lia.
  - cbn. lia.
  - repeat (constructor; [cbn; intuition discriminate|]). constructor.
  - repeat constructor.
Defined.
